(** * CIAL Activity Tracker: the eligibility / statistics engine and the
      submission gate, embedded from [utils/logic.ts] and
      [services/apiService.ts].

    The development has four parts.

    - [JS]: the pieces of the JavaScript platform the two source files call
      (string comparison, [Array.prototype.sort], [Set], [Date], [Number],
      [Math.floor], [Math.round], template-literal number printing).
    - the data model ([Activity], [Statistics], [EligibilityResult]) and the
      functions of the source, written statement by statement;
    - the notions the specification describes the results with;
    - the properties that relate the two.

    Modelling conventions.

    - A JavaScript number that holds hours is an IEEE-754 binary64 value
      ([PrimFloat.float]).  A time value is an integer number of
      milliseconds, or NaN: [option Z] with [None] for NaN.
    - [new Date(s)] is modelled on the calendar-day form [YYYY-MM-DD] of the
      ECMAScript date-time string format, which is what the [date] field of a
      record holds; such a string denotes midnight UTC of that day, an illegal
      element value (month 13, February 30) gives an Invalid Date, and so does
      every other string.  All time values obtained from records are therefore
      whole multiples of a day, and the quotients by [msPerDay] that the source
      computes are exact integers.
    - [localeCompare] is modelled as comparison by code units; on the alphabet
      of calendar-day strings (digits and the hyphen) the two coincide.
    - The wall clock is explicit state: each [new Date()] / [Date.now()]
      consumes one reading of a [Clock].
    - [setDate(getDate() - 1)] works in local time; the model is for a zone
      with a constant UTC offset, where it moves the instant back by exactly
      24 hours. *)

From Stdlib Require Import ZArith QArith Qround String Ascii List Lia.
From Stdlib Require Import PrimFloat Uint63 DecimalString Sorted Permutation.
From stdpp Require Import base list gmap strings sorting.

Local Open Scope Z_scope.

(* ===================================================================== *)
(** * The JavaScript platform *)
(* ===================================================================== *)

Module JS.

(** ** Strings *)

(** [a.localeCompare(b)] and the default comparison of [Array.prototype.sort]
    on strings. *)
Definition localeCompare (a b : string) : comparison := String.compare a b.

(** Printing of an integer inside a template literal. *)
Definition string_of_Z (z : Z) : string := NilZero.string_of_int (Z.to_int z).

Definition string_of_nat (n : nat) : string := NilZero.string_of_uint (Nat.to_uint n).

(** [padStart(w, "0")] of the decimal form of a non-negative integer. *)
Fixpoint zeros (n : nat) : string :=
  match n with
  | O => EmptyString
  | S n' => String "0" (zeros n')
  end.

Definition pad0 (w : nat) (s : string) : string :=
  zeros (w - String.length s) +:+ s.

Definition digits (w : nat) (z : Z) : string := pad0 w (string_of_Z z).

(** [s.split(c)[0]]: the part of [s] before the first occurrence of [c]. *)
Fixpoint split_head (c : ascii) (s : string) : string :=
  match s with
  | EmptyString => EmptyString
  | String a s' => if Ascii.eqb a c then EmptyString else String a (split_head c s')
  end.

(** [s.includes(t)]. *)
Fixpoint includes (s t : string) : bool :=
  String.prefix t s ||
  match s with
  | EmptyString => false
  | String _ s' => includes s' t
  end.

(** ** Arrays and sets *)

(** [Array.prototype.sort(cmp)]: a stable sort; [x] goes in front of the
    first element that does not compare below it. *)
Fixpoint sort_insert {A : Type} (cmp : A -> A -> comparison) (x : A) (l : list A) : list A :=
  match l with
  | [] => [x]
  | y :: l' =>
      match cmp x y with
      | Gt => y :: sort_insert cmp x l'
      | _ => x :: l
      end
  end.

Definition Array_sort {A : Type} (cmp : A -> A -> comparison) (l : list A) : list A :=
  foldr (sort_insert cmp) [] l.

(** [Set.prototype.add]: sets keep insertion order and hold no duplicate. *)
Definition Set_add (s : list string) (x : string) : list string :=
  if decide (x ∈ s) then s else s ++ [x].

(** [new Set(iterable)]. *)
Definition new_Set (l : list string) : list string := foldl Set_add [] l.

(** ** Dates *)

Definition msPerDay : Z := 1000 * 60 * 60 * 24.

Definition InLeapYear (y : Z) : bool :=
  ((y mod 4 =? 0) && negb (y mod 100 =? 0)) || (y mod 400 =? 0).

(** Day number of the first day of year [y] (ECMA-262, DayFromYear). *)
Definition DayFromYear (y : Z) : Z :=
  365 * (y - 1970) + (y - 1969) / 4 - (y - 1901) / 100 + (y - 1601) / 400.

Definition DaysInMonth (y m : Z) : Z :=
  if m =? 2 then (if InLeapYear y then 29 else 28)
  else if (m =? 4) || (m =? 6) || (m =? 9) || (m =? 11) then 30
  else 31.

(** Days of year [y] that precede month [m] (1-based). *)
Definition DaysBeforeMonth (y m : Z) : Z :=
  let leap := if InLeapYear y then 1 else 0 in
  if m =? 1 then 0
  else if m =? 2 then 31
  else if m =? 3 then 59 + leap
  else if m =? 4 then 90 + leap
  else if m =? 5 then 120 + leap
  else if m =? 6 then 151 + leap
  else if m =? 7 then 181 + leap
  else if m =? 8 then 212 + leap
  else if m =? 9 then 243 + leap
  else if m =? 10 then 273 + leap
  else if m =? 11 then 304 + leap
  else 334 + leap.

(** Day number of a calendar day (ECMA-262, MakeDay). *)
Definition MakeDay (y m d : Z) : Z := DayFromYear y + DaysBeforeMonth y m + (d - 1).

Definition is_digit (c : ascii) : bool :=
  (48 <=? N_of_ascii c)%N && (N_of_ascii c <=? 57)%N.

Definition digit_val (c : ascii) : Z := Z.of_N (N_of_ascii c) - 48.

Definition is_hyphen (c : ascii) : bool := (N_of_ascii c =? 45)%N.

(** The fields of a string of the form [YYYY-MM-DD]. *)
Definition iso_fields (s : string) : option (Z * Z * Z) :=
  match list_ascii_of_string s with
  | [y1; y2; y3; y4; h1; m1; m2; h2; d1; d2] =>
      if is_digit y1 && is_digit y2 && is_digit y3 && is_digit y4 &&
         is_hyphen h1 && is_digit m1 && is_digit m2 &&
         is_hyphen h2 && is_digit d1 && is_digit d2
      then Some (1000 * digit_val y1 + 100 * digit_val y2 + 10 * digit_val y3 + digit_val y4,
                 10 * digit_val m1 + digit_val m2,
                 10 * digit_val d1 + digit_val d2)
      else None
  | _ => None
  end.

Definition valid_ymd (y m d : Z) : bool :=
  (1 <=? m) && (m <=? 12) && (1 <=? d) && (d <=? DaysInMonth y m).

(** [new Date(s).getTime()]: the time value of a calendar-day string, NaN
    ([None]) for an Invalid Date. *)
Definition Date_getTime (s : string) : option Z :=
  match iso_fields s with
  | Some (y, m, d) => if valid_ymd y m d then Some (MakeDay y m d * msPerDay) else None
  | None => None
  end.

(** Calendar day of a day number (the inverse of [MakeDay]). *)
Definition civil_from_days (z : Z) : Z * Z * Z :=
  let z' := z + 719468 in
  let era := z' / 146097 in
  let doe := z' mod 146097 in
  let yoe := (doe - doe / 1460 + doe / 36524 - doe / 146096) / 365 in
  let doy := doe - (365 * yoe + yoe / 4 - yoe / 100) in
  let mp := (5 * doy + 2) / 153 in
  let d := doy - (153 * mp + 2) / 5 + 1 in
  let m := if mp <? 10 then mp + 3 else mp - 9 in
  let y := yoe + era * 400 in
  (if m <=? 2 then y + 1 else y, m, d).

(** [new Date(t).toISOString()], for a time value in range. *)
Definition toISOString (t : Z) : string :=
  let '(y, m, d) := civil_from_days (t / msPerDay) in
  let ms := t mod msPerDay in
  let year :=
    if (0 <=? y) && (y <=? 9999) then digits 4 y
    else if y <? 0 then String "-" (digits 6 (- y))
    else String "+" (digits 6 y) in
  year +:+ "-" +:+ digits 2 m +:+ "-" +:+ digits 2 d +:+ "T" +:+
  digits 2 (ms / 3600000) +:+ ":" +:+ digits 2 (ms / 60000 mod 60) +:+ ":" +:+
  digits 2 (ms / 1000 mod 60) +:+ "." +:+ digits 3 (ms mod 1000) +:+ "Z".

(** [d.setDate(d.getDate() - 1)]: one local calendar day back. *)
Definition setDate_previous (t : Z) : Z := t - msPerDay.

(** The wall clock: [readings k] is what the [k]-th read returns. *)
Record Clock : Type := mkClock { readings : nat -> Z; pos : nat }.

(** [new Date()] and [Date.now()]. *)
Definition Date_now (c : Clock) : Z * Clock :=
  (readings c (pos c), mkClock (readings c) (S (pos c))).

(** A clock that stands still at [t]. *)
Definition steady (t : Z) : Clock := mkClock (fun _ => t) 0.

(** ** Numbers *)

(** Difference of two time values; NaN is absorbing. *)
Definition time_sub (a b : option Z) : option Z :=
  match a, b with
  | Some x, Some y => Some (x - y)
  | _, _ => None
  end.

(** [t / (1000 * 60 * 60 * 24)]. *)
Definition div_msPerDay (t : option Z) : option Q :=
  match t with
  | Some x => Some (inject_Z x / inject_Z msPerDay)%Q
  | None => None
  end.

Definition Math_floor (x : option Q) : option Z :=
  match x with Some q => Some (Qfloor q) | None => None end.

(** [Math.round] rounds half-way cases up. *)
Definition Math_round (x : option Q) : option Z :=
  match x with Some q => Some (Qfloor (q + (1 # 2))%Q) | None => None end.

(** [x > y] on numbers: false as soon as one side is NaN. *)
Definition num_gt (x : option Z) (y : Z) : bool :=
  match x with Some a => y <? a | None => false end.

(** [x === y] on numbers. *)
Definition num_eq (x : option Z) (y : Z) : bool :=
  match x with Some a => a =? y | None => false end.

Definition is_nan (x : float) : bool := negb (PrimFloat.eqb x x).

(** [Number(v)] for a field that holds a number or is missing
    ([undefined]). *)
Definition Number (v : option float) : float :=
  match v with Some x => x | None => nan end.

(** [x || d] on numbers: [x] unless it is falsy (NaN, +0, -0). *)
Definition or_else (x d : float) : float :=
  if is_nan x || PrimFloat.eqb x 0 then d else x.

(** A non-negative integer as a number. *)
Definition float_of_nat (n : nat) : float :=
  PrimFloat.of_uint63 (Uint63.of_Z (Z.of_nat n)).

End JS.

(* ===================================================================== *)
(** * Data model *)
(* ===================================================================== *)

(** Modelled from the spec: [types.ts], which declares [Activity],
    [Statistics] and [EligibilityResult], is not among the sources.  The
    fields are those the spec lists (section 3) and the sources read and
    write: [submitActivity] takes an [Activity] without [id], [timestamp] and
    [qualityScore] and adds the three.  [hours] is a number; [None] stands for
    a record read back without the field ([undefined]). *)
Module Activity.
Record t : Type := mk {
  id : string;
  internId : string;
  date : string;
  hours : option float;
  category : string;
  description : string;
  proofLink : option string;
  qualityScore : float;
  timestamp : string
}.
End Activity.

(** [Omit<Activity, 'id' | 'timestamp' | 'qualityScore'>]. *)
Module ActivityInput.
Record t : Type := mk {
  internId : string;
  date : string;
  hours : option float;
  category : string;
  description : string;
  proofLink : option string
}.
End ActivityInput.

Module Statistics.
Record t : Type := mk {
  totalActiveDays : nat;
  averageHours : float;
  currentStreak : nat;
  totalSubmissions : nat
}.
End Statistics.

Module EligibilityResult.
Record t : Type := mk {
  isEligible : bool;
  activeDays : nat;
  averageHours : float;
  maxGapDays : Z;
  reasons : list string
}.
End EligibilityResult.

(* ===================================================================== *)
(** * [utils/logic.ts] *)
(* ===================================================================== *)

(** [activities.reduce((acc, curr) => acc + (Number(curr.hours) || 0), 0)] *)
Definition totalHoursOf (activities : list Activity.t) : float :=
  foldl (fun acc curr => (acc + JS.or_else (JS.Number (Activity.hours curr)) 0)%float)
        0%float activities.

(** The body of the gap loop of [calculateEligibility]:
    [for (let i = 1; i < sorted.length; i++) { ... }].  [fuel] bounds the
    number of iterations; the caller passes [sorted.length]. *)
Fixpoint gapLoop (sorted : list Activity.t) (fuel i : nat) (maxGap : Z) : Z :=
  match fuel with
  | O => maxGap
  | S fuel' =>
      if (i <? length sorted)%nat then
        match sorted !! (i - 1)%nat, sorted !! i with
        | Some prev, Some curr =>
            let prevDate := JS.Date_getTime (Activity.date prev) in
            let currDate := JS.Date_getTime (Activity.date curr) in
            let diffTime := JS.time_sub currDate prevDate in
            let diffDays := option_map (fun d => d - 1) (JS.Math_floor (JS.div_msPerDay diffTime)) in
            let maxGap := if JS.num_gt diffDays maxGap then default maxGap diffDays else maxGap in
            gapLoop sorted fuel' (S i) maxGap
        | _, _ => maxGap
        end
      else maxGap
  end.

(** The streak loop of [calculateStats]:
    [for (let i = 1; i < dateStrs.length; i++) { ... streak++ ... break }]. *)
Fixpoint streakLoop (dateStrs : list string) (fuel i streak : nat) : nat :=
  match fuel with
  | O => streak
  | S fuel' =>
      if (i <? length dateStrs)%nat then
        match dateStrs !! (i - 1)%nat, dateStrs !! i with
        | Some s1, Some s2 =>
            let d1 := JS.Date_getTime s1 in
            let d2 := JS.Date_getTime s2 in
            let diff := JS.div_msPerDay (JS.time_sub d1 d2) in
            if JS.num_eq (JS.Math_round diff) 1
            then streakLoop dateStrs fuel' (S i) (S streak)
            else streak
        | _, _ => streak
        end
      else streak
  end.

(** The comparator of the sort: [(a, b) => a.date.localeCompare(b.date)]. *)
Definition byDate (a b : Activity.t) : comparison :=
  JS.localeCompare (Activity.date a) (Activity.date b).

Section Engine.

(** [Number.prototype.toFixed]: the printing of a binary64 value with a
    given number of decimals is left to the platform. *)
Variable toFixed : float -> nat -> string.

Definition calculateEligibility (activities : list Activity.t) (joiningDate : string)
  : EligibilityResult.t :=
  (* const sorted = [...activities].sort((a, b) => a.date.localeCompare(b.date)); *)
  let sorted := JS.Array_sort byDate activities in
  (* const uniqueDates = new Set(activities.map(a => a.date)); *)
  let uniqueDates := JS.new_Set (map Activity.date activities) in
  let activeDays := length uniqueDates in
  let totalHours := totalHoursOf activities in
  let averageHours :=
    if (0 <? activeDays)%nat then (totalHours / JS.float_of_nat activeDays)%float else 0%float in
  let maxGap := 0 in
  (* if (sorted.length > 1) { for (let i = 1; ...) ... } *)
  let maxGap :=
    if (1 <? length sorted)%nat then gapLoop sorted (length sorted) 1 maxGap else maxGap in
  let reasons : list string := [] in
  let reasons :=
    if (activeDays <? 60)%nat
    then reasons ++ ["Requires 60 active days (Current: " +:+ JS.string_of_nat activeDays +:+ ")"]
    else reasons in
  let reasons :=
    if (averageHours <? 2.5)%float
    then reasons ++ ["Average hours must be ≥ 2.5 (Current: " +:+ toFixed averageHours 1 +:+ ")"]
    else reasons in
  let reasons :=
    if 3 <? maxGap
    then reasons ++ ["Maximum gap exceeded 3 consecutive days (Worst gap: "
                       +:+ JS.string_of_Z maxGap +:+ " days)"]
    else reasons in
  EligibilityResult.mk
    (* isEligible: reasons.length === 0 && activeDays > 0 *)
    ((length reasons =? 0)%nat && (0 <? activeDays)%nat)
    activeDays
    averageHours
    maxGap
    reasons.

End Engine.

Definition calculateStats (activities : list Activity.t) (clock : JS.Clock)
  : Statistics.t * JS.Clock :=
  (* if (activities.length === 0) return { ... all 0 ... }; *)
  if (length activities =? 0)%nat then (Statistics.mk 0 0%float 0 0, clock)
  else
    let uniqueDates := JS.new_Set (map Activity.date activities) in
    let activeDays := length uniqueDates in
    let totalHours := totalHoursOf activities in
    let averageHours :=
      if (0 <? activeDays)%nat then (totalHours / JS.float_of_nat activeDays)%float else 0%float in
    (* const dateStrs = Array.from(uniqueDates).sort().reverse(); *)
    let dateStrs := reverse (JS.Array_sort JS.localeCompare uniqueDates) in
    let '(streak, clock) :=
      if (0 <? length dateStrs)%nat then
        (* const todayStr = new Date().toISOString().split('T')[0]; *)
        let '(today, clock) := JS.Date_now clock in
        let todayStr := JS.split_head "T" (JS.toISOString today) in
        (* const yesterday = new Date(); yesterday.setDate(yesterday.getDate() - 1); *)
        let '(yesterday, clock) := JS.Date_now clock in
        let yesterday := JS.setDate_previous yesterday in
        let yesterdayStr := JS.split_head "T" (JS.toISOString yesterday) in
        if bool_decide (dateStrs !! 0%nat ≠ Some todayStr)
           && bool_decide (dateStrs !! 0%nat ≠ Some yesterdayStr)
        then (0%nat, clock)
        else (streakLoop dateStrs (length dateStrs) 1 1, clock)
      else (0%nat, clock) in
    (Statistics.mk activeDays averageHours streak (length activities), clock).

(* ===================================================================== *)
(** * [services/apiService.ts] *)
(* ===================================================================== *)

Module InternApiService.

(** What an asynchronous method settles with. *)
Inductive Outcome (A : Type) : Type :=
| Returns (a : A)
| Throws (message : string).
Arguments Returns {A} a.
Arguments Throws {A} message.

(** The collaborators of the service.  [activities] is what [fetchAllData]
    resolves to (the rows of the sheet or, when the sheet cannot be read, the
    mock data); [aiScore] is the [score] parsed from the answer of the scoring
    call, [None] when the call fails or answers nothing; [posted] logs the
    records sent to the sheet. *)
Record World : Type := mkWorld {
  activities : list Activity.t;
  aiScore : option float;
  posted : list Activity.t;
  clock : JS.Clock
}.

(** [if (internId) return activities.filter(a => a.internId === internId);
     return activities;]  An argument left out ([None]) and the empty string
    are both falsy. *)
Definition getActivities (internId : option string) (w : World) : list Activity.t :=
  match internId with
  | Some i =>
      if bool_decide (i ≠ EmptyString)
      then filter (fun a => Activity.internId a = i) (activities w)
      else activities w
  | None => activities w
  end.

(** [submitActivity]: the duplicate check, the quality score (5 unless the
    scoring call yields a truthy score), the new record stamped from two
    clock readings ([Date.now()], then [new Date()]), and its posting to the
    sheet, whose URL [config.ts] sets; a failure of the call or of the
    posting is caught and does not change what is returned. *)
Definition submitActivity (activity : ActivityInput.t) (w : World)
  : Outcome Activity.t * World :=
  let currentActivities := getActivities (Some (ActivityInput.internId activity)) w in
  let alreadySubmitted :=
    find (fun a => bool_decide (Activity.date a = ActivityInput.date activity)) currentActivities in
  match alreadySubmitted with
  | Some _ => (Throws "A record for today already exists.", w)
  | None =>
      let qualityScore := 5%float in
      let qualityScore :=
        match aiScore w with
        | Some score => JS.or_else score 5%float
        | None => qualityScore
        end in
      let '(now, clock) := JS.Date_now (clock w) in
      let '(stamp, clock) := JS.Date_now clock in
      let newActivity :=
        Activity.mk
          ("act-" +:+ JS.string_of_Z now)
          (ActivityInput.internId activity)
          (ActivityInput.date activity)
          (ActivityInput.hours activity)
          (ActivityInput.category activity)
          (ActivityInput.description activity)
          (ActivityInput.proofLink activity)
          qualityScore
          (JS.toISOString stamp) in
      (Returns newActivity,
       mkWorld (activities w) (aiScore w) (posted w ++ [newActivity]) clock)
  end.

End InternApiService.

(* ===================================================================== *)
(** * Specification-level definitions *)
(* ===================================================================== *)

(** The notions the specification uses to describe the results, defined
    independently of the loops of the source; the theorems below relate the
    two. *)

Import JS.

(** ** Orders *)

(** [x] does not sort after [y] under the comparator [cmp]. *)
Definition cmp_le {A : Type} (cmp : A → A → comparison) (x y : A) : Prop := cmp x y ≠ Gt.

(** Ascending order of date strings. *)
Definition str_le (a b : string) : Prop := localeCompare a b ≠ Gt.

(** ** The longest gap *)

Fixpoint adjacentPairs {A : Type} (l : list A) : list (A * A) :=
  match l with
  | a :: (b :: _) as t => (a, b) :: adjacentPairs t
  | _ => []
  end.

(** [floor((curr - prev) in days) - 1]; no value when a date is invalid. *)
Definition gapBetween (prev curr : string) : option Z :=
  match Date_getTime prev, Date_getTime curr with
  | Some t1, Some t2 => Some ((t2 - t1) / msPerDay - 1)
  | _, _ => None
  end.

(** The maximum, starting from 0, of the gaps of the adjacent pairs. *)
Definition specMaxGap (sortedDates : list string) : Z :=
  foldr Z.max 0 (omap (fun p => gapBetween p.1 p.2) (adjacentPairs sortedDates)).

(** ** The streak *)

(** [b] is exactly one calendar day before [a]. *)
Definition dayBefore (a b : string) : bool :=
  match Date_getTime a, Date_getTime b with
  | Some ta, Some tb => ta - tb =? msPerDay
  | _, _ => false
  end.

(** The number of leading steps of [ds], newest first, that go back by
    exactly one calendar day; the count stops at the first other step. *)
Fixpoint consecutiveRun (ds : list string) : nat :=
  match ds with
  | a :: (b :: _) as t => if dayBefore a b then S (consecutiveRun t) else 0%nat
  | _ => 0%nat
  end.

(** The UTC calendar day of an instant, as a string. *)
Definition calendarDay (t : Z) : string := split_head "T" (toISOString t).

Definition specStreak (todayStr yesterdayStr : string) (ds : list string) : nat :=
  match ds with
  | [] => 0%nat
  | newest :: _ =>
      if bool_decide (newest ≠ todayStr ∧ newest ≠ yesterdayStr) then 0%nat
      else (1 + consecutiveRun ds)%nat
  end.

(** The distinct dates of the records, newest first. *)
Definition distinctDatesDesc (activities : list Activity.t) : list string :=
  reverse (Array_sort localeCompare (new_Set (map Activity.date activities))).

(** ** Day count and hours *)

(** The number of distinct date strings of the records. *)
Definition distinctDateCount (activities : list Activity.t) : nat :=
  size (list_to_set (map Activity.date activities) : gset string).

(** What one record adds to the total: its hours, or 0 when the field is
    missing, is not a number, or is zero. *)
Definition hoursContribution (h : option float) : float :=
  match h with
  | Some x => if is_nan x then 0%float else if (x =? 0)%float then 0%float else x
  | None => 0%float
  end.

(** The sum over all records, in the order of the list. *)
Definition specTotalHours (activities : list Activity.t) : float :=
  foldl (fun acc a => (acc + hoursContribution (Activity.hours a))%float) 0%float activities.

Definition specAverageHours (activities : list Activity.t) : float :=
  if (0 <? distinctDateCount activities)%nat
  then (specTotalHours activities / float_of_nat (distinctDateCount activities))%float
  else 0%float.

(** ** The submission gate *)

(** A record of the store that belongs to the submitting intern and carries
    the submitted date. *)
Definition sameInternAndDate (activity : ActivityInput.t) (a : Activity.t) : Prop :=
  Activity.internId a = ActivityInput.internId activity
  ∧ Activity.date a = ActivityInput.date activity.

(** The pair that identifies a record: at most one record per key. *)
Definition key (a : Activity.t) : string * string := (Activity.internId a, Activity.date a).

(** ** Sample data *)

(** A record of intern CIAL001 with a date and hours. *)
Definition day (d : string) (h : float) : Activity.t :=
  Activity.mk "" "CIAL001" d (Some h) "" "" None 5%float "".

(** Each of the [n] day numbers from [z] on is mapped by [civil_from_days]
    to a valid calendar day that [MakeDay] maps back. *)
Fixpoint civil_roundtrip (z : Z) (n : nat) : bool :=
  match n with
  | O => true
  | S n' =>
      (let '(y, m, d) := civil_from_days z in valid_ymd y m d && (MakeDay y m d =? z))
      && civil_roundtrip (z + 1) n'
  end.

(* ===================================================================== *)
(** * Further platform pieces *)
(* ===================================================================== *)

(** A value is truthy unless it is NaN, +0 or -0; a missing numeric field
    ([undefined]) is falsy like NaN. *)
Definition truthy (x : float) : bool := negb (is_nan x || (x =? 0)%float).

(** A non-empty string is truthy. *)
Definition truthy_string (s : string) : bool := bool_decide (s ≠ EmptyString).

(** A [Map] with string keys: the entries in insertion order.  [set] on a
    key that is present replaces the value where it stands. *)
Fixpoint Map_get {V : Type} (k : string) (m : list (string * V)) : option V :=
  match m with
  | [] => None
  | (k', v) :: m' => if decide (k' = k) then Some v else Map_get k m'
  end.

Definition Map_has {V : Type} (k : string) (m : list (string * V)) : bool :=
  match Map_get k m with Some _ => true | None => false end.

Fixpoint Map_set {V : Type} (k : string) (v : V) (m : list (string * V)) : list (string * V) :=
  match m with
  | [] => [(k, v)]
  | (k', v') :: m' => if decide (k' = k) then (k, v) :: m' else (k', v') :: Map_set k v m'
  end.

Definition Map_values {V : Type} (m : list (string * V)) : list V := map snd m.

(** [s.split(c)] for a separator of one character. *)
Fixpoint split_char (c : ascii) (s : string) : list string :=
  match s with
  | EmptyString => [EmptyString]
  | String a s' =>
      if Ascii.eqb a c then EmptyString :: split_char c s'
      else match split_char c s' with
           | [] => [String a EmptyString]
           | w :: ws => String a w :: ws
           end
  end.

(** Whether the character occurs in the string. *)
Fixpoint has_char (c : ascii) (s : string) : bool :=
  match s with
  | EmptyString => false
  | String a s' => Ascii.eqb a c || has_char c s'
  end.

Definition newline : ascii := ascii_of_nat 10.
Definition comma : ascii := ascii_of_nat 44.
Definition quote : ascii := ascii_of_nat 34.

(* ===================================================================== *)
(** * [utils/logic.ts], continued: [formatCSV] *)
(* ===================================================================== *)

Section FormatCSV.

(** [data: any[]]: an object is the list of its own properties in the order
    [Object.keys] gives them, with values of any type; [toString] is the
    conversion of a value inside a template literal. *)
Variable Value : Type.
Variable toString : Value → string.

Definition formatCSV (data : list (list (string * Value))) : string :=
  match data with
  | [] => EmptyString
  | first :: _ =>
      let headers := String.concat "," (map fst first) in
      let rows :=
        String.concat (String newline EmptyString)
          (map (fun obj =>
                  String.concat ","
                    (map (fun v => String quote (toString v +:+ String quote EmptyString))
                         (map snd obj)))
               data) in
      headers +:+ String newline EmptyString +:+ rows
  end.

End FormatCSV.

(* ===================================================================== *)
(** * [components/InternDashboard.tsx]: the activity list of the dashboard *)
(* ===================================================================== *)

Module InternDashboard.

(** [(a, b) => b.date.localeCompare(a.date)]: newest first. *)
Definition byDateDesc (a b : Activity.t) : comparison :=
  localeCompare (Activity.date b) (Activity.date a).

(** [item.id || `${item.internId}_${item.date}`] *)
Definition mergeKey (item : Activity.t) : string :=
  if truthy_string (Activity.id item) then Activity.id item
  else Activity.internId item +:+ "_" +:+ Activity.date item.

(** The body of [combined.forEach(item => { ... })]. *)
Definition mergeStep (uniqueMap : list (string * Activity.t)) (item : Activity.t)
  : list (string * Activity.t) :=
  let key := mergeKey item in
  if negb (Map_has key uniqueMap)
     || (truthy (Activity.qualityScore item)
         && negb (from_option (fun e => truthy (Activity.qualityScore e)) false
                    (Map_get key uniqueMap)))
  then Map_set key item uniqueMap
  else uniqueMap.

(** The new list that the updater of [fetchData] computes from the list on
    screen ([prev]) and the records fetched ([cloudData]). *)
Definition mergeActivities (prev cloudData : list Activity.t) : list Activity.t :=
  let combined := prev ++ cloudData in
  let uniqueMap := foldl mergeStep [] combined in
  let unique := Map_values uniqueMap in
  let sorted := Array_sort byDateDesc unique in
  sorted.

(** The new list that the updater of [handleSubmissionSuccess] computes. *)
Definition addSubmission (newAct : Activity.t) (prev : list Activity.t) : list Activity.t :=
  if existsb (fun a => bool_decide (Activity.date a = Activity.date newAct)) prev then prev
  else
    let updated := newAct :: prev in
    let sorted := Array_sort byDateDesc updated in
    sorted.

Section Storage.

(** [localStorage], and [JSON.stringify] on activity lists. *)
Variable JSON_stringify : list Activity.t → string.

(** [setActivities(prev => { ... })] in [fetchData]: the merged list is
    saved under the key of the intern and becomes the list on screen. *)
Definition fetchData_update (STORAGE_KEY : string) (cloudData prev : list Activity.t)
    (localStorage : gmap string string) : list Activity.t * gmap string string :=
  let sorted := mergeActivities prev cloudData in
  (sorted, <[STORAGE_KEY := JSON_stringify sorted]> localStorage).

(** [setActivities(prev => { ... })] in [handleSubmissionSuccess]: nothing
    is saved when the date is already on screen. *)
Definition handleSubmissionSuccess (STORAGE_KEY : string) (newAct : Activity.t)
    (prev : list Activity.t) (localStorage : gmap string string)
  : list Activity.t * gmap string string :=
  if existsb (fun a => bool_decide (Activity.date a = Activity.date newAct)) prev
  then (prev, localStorage)
  else
    let sorted := addSubmission newAct prev in
    (sorted, <[STORAGE_KEY := JSON_stringify sorted]> localStorage).

End Storage.

(** [firstLogDate]: [null] without records, else the date of the first
    record in ascending order of date. *)
Definition firstLogDate (activities : list Activity.t) : option string :=
  if (length activities =? 0)%nat then None
  else
    let sorted := Array_sort byDate activities in
    Activity.date <$> sorted !! 0%nat.

End InternDashboard.

(* ===================================================================== *)
(** * [services/apiService.ts], continued: the interns *)
(* ===================================================================== *)

(** [UserRole] and [User], with the fields of the objects that
    [fetchAllData] builds (lines 51-59). *)
Inductive UserRole : Type := INTERN | ADMIN.

Module User.
Record t : Type := mk {
  id : string;
  name : string;
  internId : string;
  email : string;
  role : UserRole;
  status : string;
  joiningDate : string
}.
End User.

Module InternDirectory.

Section Service.

(** [MOCK_ADMIN] of [mockData.ts], and the two string methods the service
    calls on intern ids. *)
Variable MOCK_ADMIN : User.t.
Variable toUpperCase : string → string.
Variable trim : string → string.

(** [getInternDirectory], on the interns that [fetchAllData] resolves to:
    pairs (name, id). *)
Definition getInternDirectory (interns : list User.t) : list (string * string) :=
  let list := map (fun i => (User.name i, User.internId i)) interns in
  match find (fun i => bool_decide (i.2 = User.internId MOCK_ADMIN)) list with
  | Some _ => list
  | None => (User.name MOCK_ADMIN, User.internId MOCK_ADMIN) :: list
  end.

(** [loginByName]; [null] is [None]. *)
Definition loginByName (interns : list User.t) (name internId : string) : option User.t :=
  let normalizedId := trim (toUpperCase internId) in
  if bool_decide (normalizedId = User.internId MOCK_ADMIN) then Some MOCK_ADMIN
  else find (fun u => bool_decide (toUpperCase (User.internId u) = normalizedId)) interns.

End Service.

End InternDirectory.

(* ===================================================================== *)
(** * Specification-level definitions, continued *)
(* ===================================================================== *)

(** The record that stands for the key [k] among the candidates [l]: the
    first one with that key and a truthy quality score, else the first one
    with that key. *)
Definition representative (k : string) (l : list Activity.t) : option Activity.t :=
  match find (fun x => bool_decide (InternDashboard.mergeKey x = k)
                       && truthy (Activity.qualityScore x)) l with
  | Some y => Some y
  | None => find (fun x => bool_decide (InternDashboard.mergeKey x = k)) l
  end.

(** Newest first. *)
Definition newestFirst (l : list Activity.t) : Prop :=
  Sorted (fun a b => str_le (Activity.date b) (Activity.date a)) l.

(** One data line of the CSV text: the values of an object, each between
    quotes, separated by commas. *)
Definition csvRow {Value : Type} (toString : Value → string) (obj : list (string * Value))
  : string :=
  String.concat ","
    (map (fun v => String quote (toString v +:+ String quote EmptyString)) (map snd obj)).

(* ===================================================================== *)
(** * Properties of the platform model *)
(* ===================================================================== *)

Example Date_getTime_sample : Date_getTime "2024-01-01" = Some 1704067200000.
Proof. reflexivity. Qed.

Example Date_getTime_invalid :
  Date_getTime "2024-02-30" = None ∧ Date_getTime "2023-02-29" = None
  ∧ Date_getTime "2024-13-01" = None ∧ Date_getTime "yesterday" = None.
Proof. by vm_compute. Qed.

Example toISOString_sample : toISOString 1709210096789 = "2024-02-29T12:34:56.789Z".
Proof. reflexivity. Qed.

Example calendarDay_sample : calendarDay 1709210096789 = "2024-02-29".
Proof. reflexivity. Qed.

(** The days of 2000 to 2010, and those around 1900 (not a leap year). *)
Example civil_roundtrip_sample :
  civil_roundtrip 10957 4000 = true ∧ civil_roundtrip (-26000) 1500 = true.
Proof. by vm_compute. Qed.

(** ** Sets *)

Lemma Set_add_NoDup s x : NoDup s → NoDup (Set_add s x).
Proof.
  intros Hs. unfold Set_add. case_decide; [done|].
  apply NoDup_app. split_and!; [done| |apply NoDup_singleton].
  intros y Hy Hy'. apply list_elem_of_singleton in Hy'. by subst.
Qed.

Lemma Set_add_elem s x y : y ∈ Set_add s x ↔ y ∈ s ∨ y = x.
Proof.
  unfold Set_add. case_decide.
  - split; [by left|]. intros [?| ->]; done.
  - rewrite elem_of_app, list_elem_of_singleton. done.
Qed.

Lemma Set_add_length s x : (length s ≤ length (Set_add s x) ≤ S (length s))%nat.
Proof. unfold Set_add. case_decide; [lia|]. rewrite length_app. simpl. lia. Qed.

Lemma foldl_Set_add_spec l s :
  NoDup s →
  NoDup (foldl Set_add s l)
  ∧ (∀ y, y ∈ foldl Set_add s l ↔ y ∈ s ∨ y ∈ l)
  ∧ (length (foldl Set_add s l) ≤ length s + length l)%nat.
Proof.
  revert s. induction l as [|x l IH]; intros s Hs; simpl.
  - split_and!; [done| |lia]. intros y. rewrite elem_of_nil. tauto.
  - destruct (IH (Set_add s x) (Set_add_NoDup s x Hs)) as (Hn & He & Hl).
    split_and!; [done| |].
    + intros y. rewrite He, Set_add_elem, elem_of_cons. tauto.
    + pose proof (Set_add_length s x). lia.
Qed.

Lemma new_Set_NoDup l : NoDup (new_Set l).
Proof. apply (foldl_Set_add_spec l []), NoDup_nil_2. Qed.

Lemma new_Set_elem l y : y ∈ new_Set l ↔ y ∈ l.
Proof.
  destruct (foldl_Set_add_spec l [] (NoDup_nil_2)) as (_ & He & _).
  unfold new_Set. rewrite He, elem_of_nil. tauto.
Qed.

Lemma new_Set_length l : (length (new_Set l) ≤ length l)%nat.
Proof. destruct (foldl_Set_add_spec l [] (NoDup_nil_2)) as (_ & _ & Hl). exact Hl. Qed.

(** The size of a [Set] built from a list is the number of distinct elements
    of the list. *)
Lemma new_Set_size l : length (new_Set l) = size (list_to_set l : gset string).
Proof.
  rewrite <- (size_list_to_set (C := gset string) (new_Set l) (new_Set_NoDup l)).
  f_equal. apply set_eq. intros y.
  rewrite !elem_of_list_to_set. apply new_Set_elem.
Qed.

(** ** Sorting *)

Section Sort.
Context {A : Type} (cmp : A → A → comparison).

Lemma sort_insert_perm x l : sort_insert cmp x l ≡ₚ x :: l.
Proof.
  induction l as [|y l IH]; simpl; [done|].
  destruct (cmp x y); [done|done|]. rewrite IH. apply perm_swap.
Qed.

Lemma Array_sort_perm l : Array_sort cmp l ≡ₚ l.
Proof.
  induction l as [|x l IH]; simpl; [done|].
  unfold Array_sort in *. simpl. by rewrite sort_insert_perm, IH.
Qed.

Lemma Array_sort_length l : length (Array_sort cmp l) = length l.
Proof. by rewrite Array_sort_perm. Qed.

Hypothesis cmp_antisym : ∀ x y, cmp x y = CompOpp (cmp y x).

Lemma sort_insert_HdRel x y l :
  (cmp_le cmp) y x → HdRel (cmp_le cmp) y l → HdRel (cmp_le cmp) y (sort_insert cmp x l).
Proof.
  intros Hyx Hl. destruct l as [|z l]; simpl; [by constructor|].
  inversion_clear Hl. destruct (cmp x z); by constructor.
Qed.

Lemma sort_insert_Sorted x l : Sorted (cmp_le cmp) l → Sorted (cmp_le cmp) (sort_insert cmp x l).
Proof.
  induction 1 as [|y l Hs IH Hhd]; simpl; [by repeat constructor|].
  destruct (cmp x y) eqn:Hxy.
  - constructor; [by constructor|]. constructor. unfold cmp_le. congruence.
  - constructor; [by constructor|]. constructor. unfold cmp_le. congruence.
  - constructor; [done|]. apply sort_insert_HdRel; [|done].
    unfold cmp_le. rewrite cmp_antisym, Hxy. done.
Qed.

Lemma Array_sort_Sorted l : Sorted (cmp_le cmp) (Array_sort cmp l).
Proof.
  induction l as [|x l IH]; [constructor|].
  unfold Array_sort in *. simpl. by apply sort_insert_Sorted.
Qed.

End Sort.

(** ** Order on strings *)

Lemma ascii_compare_N a b : Ascii.compare a b = (N_of_ascii a ?= N_of_ascii b)%N.
Proof. reflexivity. Qed.

Lemma ascii_compare_refl a : Ascii.compare a a = Eq.
Proof. rewrite ascii_compare_N. apply N.compare_refl. Qed.

Lemma compare_cons_Lt a s b t :
  String.compare (String a s) (String b t) = Lt ↔
  (N_of_ascii a < N_of_ascii b)%N ∨ (a = b ∧ String.compare s t = Lt).
Proof.
  simpl. rewrite ascii_compare_N.
  destruct (N.compare_spec (N_of_ascii a) (N_of_ascii b)) as [He|Hl|Hg].
  - assert (a = b) as -> by (rewrite <- (ascii_N_embedding a), <- (ascii_N_embedding b); congruence).
    split; [by right|]. intros [?|[_ ?]]; [lia|done].
  - split; [by left|done].
  - split; [done|]. intros [?|[-> _]]; lia.
Qed.

Lemma compare_Lt_trans s1 s2 s3 :
  String.compare s1 s2 = Lt → String.compare s2 s3 = Lt → String.compare s1 s3 = Lt.
Proof.
  revert s2 s3. induction s1 as [|a s1 IH]; intros [|b s2] [|c s3]; try done.
  rewrite !compare_cons_Lt.
  intros [H1|[-> H1]] [H2|[-> H2]]; [left; lia|by left|by left|].
  right. split; [done|]. by eapply IH.
Qed.

Lemma str_le_alt a b : str_le a b ↔ a = b ∨ String.compare a b = Lt.
Proof.
  unfold str_le, localeCompare. destruct (String.compare a b) eqn:H.
  - apply String.compare_eq_iff in H. split; [by left|done].
  - split; [by right|done].
  - split; [done|]. intros [->|?]; [|done].
    assert (String.compare b b = Eq) as Hr.
    { clear H. induction b as [|c b IH]; simpl; [done|]. by rewrite ascii_compare_refl. }
    congruence.
Qed.

Global Instance str_le_trans : Transitive str_le.
Proof.
  intros a b c. rewrite !str_le_alt.
  intros [->|H1] [->|H2]; auto. right. by eapply compare_Lt_trans.
Qed.

Global Instance str_le_antisym : AntiSymm (=) str_le.
Proof.
  intros a b. rewrite !str_le_alt. intros [->|H1] [?|H2]; auto.
  rewrite String.compare_antisym, H2 in H1. done.
Qed.

Lemma localeCompare_antisym a b : localeCompare a b = CompOpp (localeCompare b a).
Proof. apply String.compare_antisym. Qed.

(** ** Calendar-day strings *)

Lemma list_ascii_inj s l : list_ascii_of_string s = l → s = string_of_list_ascii l.
Proof. intros <-. by rewrite string_of_list_ascii_of_string. Qed.

Lemma is_digit_spec c : is_digit c = true → 0 ≤ digit_val c ≤ 9.
Proof.
  unfold is_digit, digit_val. rewrite andb_true_iff, !N.leb_le. lia.
Qed.

(** Two calendar-day strings compare as their (year, month, day) triples. *)
Lemma iso_fields_Lt s s' y m d y' m' d' :
  iso_fields s = Some (y, m, d) →
  iso_fields s' = Some (y', m', d') →
  String.compare s s' = Lt →
  y < y' ∨ (y = y' ∧ (m < m' ∨ (m = m' ∧ d < d'))).
Proof.
  unfold iso_fields. intros H H'.
  destruct (list_ascii_of_string s) as [|a1 [|a2 [|a3 [|a4 [|a5 [|a6 [|a7 [|a8 [|a9 [|a10 [|? ?]]]]]]]]]]] eqn:Hs;
    try discriminate H.
  destruct (list_ascii_of_string s') as [|b1 [|b2 [|b3 [|b4 [|b5 [|b6 [|b7 [|b8 [|b9 [|b10 [|? ?]]]]]]]]]]] eqn:Hs';
    try discriminate H'.
  apply list_ascii_inj in Hs, Hs'. subst s s'. simpl.
  destruct (_ && _) eqn:E in H; [|discriminate H].
  destruct (_ && _) eqn:E' in H'; [|discriminate H'].
  injection H as <- <- <-. injection H' as <- <- <-.
  rewrite !andb_true_iff in E, E'. destruct_and!.
  repeat match goal with
         | H : is_digit _ = true |- _ => apply is_digit_spec in H
         | H : is_hyphen _ = true |- _ => apply N.eqb_eq in H
         end.
  rewrite !ascii_compare_N.
  unfold digit_val in *.
  repeat match goal with |- context [(?a ?= ?b)%N] =>
    destruct (N.compare_spec a b) end; try discriminate; intros _; lia.
Qed.

Lemma DayFromYear_succ y :
  DayFromYear (y + 1) = DayFromYear y + 365 + (if InLeapYear y then 1 else 0).
Proof.
  unfold DayFromYear, InLeapYear.
  repeat match goal with |- context [?a =? ?b] => destruct (Z.eqb_spec a b) end; simpl;
    Z.div_mod_to_equations; lia.
Qed.

Lemma DayFromYear_mono y y' : y ≤ y' → DayFromYear y ≤ DayFromYear y'.
Proof.
  intros H. replace y' with (y + Z.of_nat (Z.to_nat (y' - y))) by lia.
  induction (Z.to_nat (y' - y)) as [|n IH]; [by rewrite Z.add_0_r|].
  replace (y + Z.of_nat (S n)) with (y + Z.of_nat n + 1) by lia.
  rewrite DayFromYear_succ. destruct (InLeapYear _); lia.
Qed.

Lemma valid_ymd_spec y m d :
  valid_ymd y m d = true → 1 ≤ m ≤ 12 ∧ 1 ≤ d ≤ DaysInMonth y m.
Proof. unfold valid_ymd. rewrite !andb_true_iff, !Z.leb_le. lia. Qed.

(** Within a year, the day of the year grows with (month, day). *)
Lemma day_of_year_bounds y m d :
  1 ≤ m ≤ 12 → 1 ≤ d ≤ DaysInMonth y m →
  0 ≤ DaysBeforeMonth y m + (d - 1) < 365 + (if InLeapYear y then 1 else 0)
  ∧ ∀ m', m < m' ≤ 12 → DaysBeforeMonth y m + d ≤ DaysBeforeMonth y m'.
Proof.
  intros Hm. unfold DaysInMonth, DaysBeforeMonth.
  assert (m = 1 ∨ m = 2 ∨ m = 3 ∨ m = 4 ∨ m = 5 ∨ m = 6 ∨ m = 7 ∨ m = 8 ∨ m = 9
          ∨ m = 10 ∨ m = 11 ∨ m = 12) as Hc by lia.
  destruct (InLeapYear y);
    repeat (destruct Hc as [->|Hc]; [simpl; intros Hd; split; [lia|];
      intros m' Hm';
      repeat match goal with |- context [?a =? ?b] => destruct (Z.eqb_spec a b); [lia|] end; lia|]);
    subst m; simpl; intros Hd; (split; [lia|]); intros m' Hm'; lia.
Qed.

(** [MakeDay] is strictly increasing on valid calendar days. *)
Lemma MakeDay_lt y m d y' m' d' :
  valid_ymd y m d = true → valid_ymd y' m' d' = true →
  y < y' ∨ (y = y' ∧ (m < m' ∨ (m = m' ∧ d < d'))) →
  MakeDay y m d < MakeDay y' m' d'.
Proof.
  intros [Hm Hd]%valid_ymd_spec [Hm' Hd']%valid_ymd_spec Hlt. unfold MakeDay.
  destruct (day_of_year_bounds y m d Hm Hd) as [Hb Hmon].
  destruct (day_of_year_bounds y' m' d' Hm' Hd') as [Hb' _].
  destruct Hlt as [Hy|[-> [Hlt| [-> Hlt]]]].
  - pose proof (DayFromYear_mono (y + 1) y' ltac:(lia)) as Hmono.
    rewrite DayFromYear_succ in Hmono. lia.
  - specialize (Hmon m' ltac:(lia)). lia.
  - lia.
Qed.

Lemma Date_getTime_inv s t :
  Date_getTime s = Some t →
  ∃ y m d, iso_fields s = Some (y, m, d) ∧ valid_ymd y m d = true ∧ t = MakeDay y m d * msPerDay.
Proof.
  unfold Date_getTime. destruct (iso_fields s) as [[[y m] d]|]; [|done].
  destruct (valid_ymd y m d) eqn:Hv; [|done]. intros [= <-]. by exists y, m, d.
Qed.

(** Every time value read from a record is a whole number of days. *)
Lemma Date_getTime_aligned s t : Date_getTime s = Some t → ∃ k, t = k * msPerDay.
Proof. intros (y & m & d & _ & _ & ->)%Date_getTime_inv. eauto. Qed.

(** Calendar-day strings sort chronologically. *)
Lemma Date_getTime_Lt s s' t t' :
  Date_getTime s = Some t → Date_getTime s' = Some t' →
  String.compare s s' = Lt → t < t'.
Proof.
  intros (y & m & d & Hf & Hv & ->)%Date_getTime_inv
         (y' & m' & d' & Hf' & Hv' & ->)%Date_getTime_inv Hlt.
  pose proof (MakeDay_lt _ _ _ _ _ _ Hv Hv' (iso_fields_Lt _ _ _ _ _ _ _ _ Hf Hf' Hlt)).
  unfold msPerDay. lia.
Qed.


(* ===================================================================== *)
(** * The longest gap *)
(* ===================================================================== *)

Lemma specMaxGap_nonneg l : 0 ≤ specMaxGap l.
Proof. unfold specMaxGap. induction (omap _ _); simpl; lia. Qed.

Lemma specMaxGap_short l : (length l ≤ 1)%nat → specMaxGap l = 0.
Proof. destruct l as [|? [|? ?]]; simpl; [done|done|lia]. Qed.

Lemma specMaxGap_cons a b l :
  specMaxGap (a :: b :: l) =
  match gapBetween a b with
  | Some g => Z.max g (specMaxGap (b :: l))
  | None => specMaxGap (b :: l)
  end.
Proof. unfold specMaxGap. simpl. by destruct (gapBetween a b). Qed.

(** What one iteration of the loop computes is the specification's gap. *)
Lemma diffDays_gapBetween prev curr :
  option_map (fun d => d - 1)
    (Math_floor (div_msPerDay (time_sub (Date_getTime curr) (Date_getTime prev))))
  = gapBetween prev curr.
Proof.
  unfold gapBetween, time_sub, div_msPerDay, Math_floor, option_map.
  destruct (Date_getTime prev), (Date_getTime curr); try done.
  by rewrite <- Zdiv_Qdiv.
Qed.

Lemma gapLoop_spec sorted fuel i maxGap :
  (1 ≤ i)%nat → (length sorted ≤ fuel + i)%nat → 0 ≤ maxGap →
  gapLoop sorted fuel i maxGap
  = Z.max maxGap (specMaxGap (Activity.date <$> drop (i - 1) sorted)).
Proof.
  revert i maxGap. induction fuel as [|fuel IH]; intros i m Hi Hlen Hm; simpl.
  - rewrite specMaxGap_short; [lia|]. rewrite length_fmap, length_drop. lia.
  - destruct (Nat.ltb_spec i (length sorted)) as [Hlt|Hge].
    + destruct (lookup_lt_is_Some_2 sorted (i - 1)) as [prev Hp]; [lia|].
      destruct (lookup_lt_is_Some_2 sorted i) as [curr Hc]; [lia|].
      rewrite Hp, Hc, diffDays_gapBetween.
      rewrite (drop_S _ _ _ Hp). replace (S (i - 1)) with i by lia.
      rewrite (drop_S _ _ _ Hc). rewrite !fmap_cons, specMaxGap_cons.
      rewrite IH; [|lia|lia|];
        [|destruct (gapBetween _ _) as [g|]; simpl; [destruct (Z.ltb_spec m g)|]; lia].
      replace (S i - 1)%nat with i by lia. rewrite (drop_S _ _ _ Hc), fmap_cons.
      destruct (gapBetween _ _) as [g|]; simpl; [|done].
      destruct (Z.ltb_spec m g); lia.
    + rewrite specMaxGap_short; [lia|]. rewrite length_fmap, length_drop. lia.
Qed.

Lemma maxGapDays_spec toFixed activities joiningDate :
  EligibilityResult.maxGapDays (calculateEligibility toFixed activities joiningDate)
  = specMaxGap (Activity.date <$> Array_sort byDate activities).
Proof.
  unfold calculateEligibility. cbn [EligibilityResult.maxGapDays]. fold byDate.
  destruct (Nat.ltb_spec 1 (length (Array_sort byDate activities))) as [Hlt|Hge].
  - rewrite gapLoop_spec by lia. change (1 - 1)%nat with 0%nat. rewrite drop_0.
    pose proof (specMaxGap_nonneg
      (Activity.date <$> Array_sort byDate activities)). lia.
  - rewrite specMaxGap_short; [done|]. by rewrite length_fmap.
Qed.

Lemma sorted_dates activities :
  Sorted str_le (Activity.date <$> Array_sort byDate activities).
Proof.
  apply (Sorted_fmap _ (cmp_le byDate)); [done|].
  apply Array_sort_Sorted. intros x y. apply localeCompare_antisym.
Qed.






(* ===================================================================== *)
(** * The streak *)
(* ===================================================================== *)

Lemma round_days k : Qfloor (inject_Z (k * msPerDay) / inject_Z msPerDay + (1 # 2)) = k.
Proof.
  unfold Qdiv, Qmult, Qinv, Qplus, Qfloor, inject_Z, msPerDay. simpl.
  Z.div_mod_to_equations. lia.
Qed.

Lemma round_dayBefore s1 s2 :
  num_eq (Math_round (div_msPerDay (time_sub (Date_getTime s1) (Date_getTime s2)))) 1
  = dayBefore s1 s2.
Proof.
  unfold dayBefore, time_sub, div_msPerDay, Math_round, num_eq.
  destruct (Date_getTime s1) as [t1|] eqn:H1; [|done].
  destruct (Date_getTime s2) as [t2|] eqn:H2; [|done].
  apply Date_getTime_aligned in H1 as [k1 ->], H2 as [k2 ->].
  replace (k1 * msPerDay - k2 * msPerDay) with ((k1 - k2) * msPerDay) by lia.
  rewrite round_days.
  destruct (Z.eqb_spec (k1 - k2) 1), (Z.eqb_spec ((k1 - k2) * msPerDay) msPerDay);
    try done; unfold msPerDay in *; lia.
Qed.

Lemma consecutiveRun_cons a b l :
  consecutiveRun (a :: b :: l) = if dayBefore a b then S (consecutiveRun (b :: l)) else 0%nat.
Proof. reflexivity. Qed.

Lemma consecutiveRun_short l : (length l ≤ 1)%nat → consecutiveRun l = 0%nat.
Proof. destruct l as [|? [|? ?]]; simpl; [done|done|lia]. Qed.

Lemma consecutiveRun_bound l : (consecutiveRun l ≤ pred (length l))%nat.
Proof.
  induction l as [|a [|b l] IH]; simpl in *; [lia|lia|].
  destruct (dayBefore a b); lia.
Qed.

Lemma streakLoop_spec dateStrs fuel i streak :
  (1 ≤ i)%nat → (length dateStrs ≤ fuel + i)%nat →
  streakLoop dateStrs fuel i streak
  = (streak + consecutiveRun (drop (i - 1) dateStrs))%nat.
Proof.
  revert i streak. induction fuel as [|fuel IH]; intros i s Hi Hlen; simpl.
  - rewrite consecutiveRun_short; [lia|]. rewrite length_drop. lia.
  - destruct (Nat.ltb_spec i (length dateStrs)) as [Hlt|Hge].
    + destruct (lookup_lt_is_Some_2 dateStrs (i - 1)) as [s1 Hp]; [lia|].
      destruct (lookup_lt_is_Some_2 dateStrs i) as [s2 Hc]; [lia|].
      rewrite Hp, Hc, round_dayBefore.
      rewrite (drop_S _ _ _ Hp). replace (S (i - 1)) with i by lia.
      rewrite (drop_S _ _ _ Hc), consecutiveRun_cons.
      destruct (dayBefore s1 s2); [|lia].
      rewrite IH by lia. replace (S i - 1)%nat with i by lia.
      rewrite (drop_S _ _ _ Hc). lia.
    + rewrite consecutiveRun_short; [lia|]. rewrite length_drop. lia.
Qed.

Lemma distinctDatesDesc_length activities :
  length (distinctDatesDesc activities) = length (new_Set (map Activity.date activities)).
Proof. unfold distinctDatesDesc. by rewrite length_reverse, Array_sort_length. Qed.

Lemma distinctDatesDesc_nil activities :
  distinctDatesDesc activities = [] → activities = [].
Proof.
  intros H. destruct activities as [|a l]; [done|]. exfalso.
  assert (Activity.date a ∈ distinctDatesDesc (a :: l)) as Hin.
  { unfold distinctDatesDesc. rewrite elem_of_reverse, Array_sort_perm, new_Set_elem.
    apply elem_of_cons. by left. }
  rewrite H in Hin. by apply elem_of_nil in Hin.
Qed.

Lemma bool_decide_Some_ne (a b : string) :
  bool_decide (Some a ≠ Some b) = bool_decide (a ≠ b).
Proof. apply bool_decide_ext. split; intros H ?; apply H; congruence. Qed.

Lemma currentStreak_spec activities clock :
  Statistics.currentStreak (calculateStats activities clock).1
  = specStreak (calendarDay (readings clock (pos clock)))
               (calendarDay (readings clock (S (pos clock)) - msPerDay))
               (distinctDatesDesc activities).
Proof.
  unfold calculateStats. destruct activities as [|a l]; [done|].
  cbn [length Nat.eqb]. fold (distinctDatesDesc (a :: l)).
  destruct (distinctDatesDesc (a :: l)) as [|newest ds] eqn:Hds.
  { by apply distinctDatesDesc_nil in Hds. }
  cbn [length Nat.ltb Nat.leb Date_now readings pos lookup list_lookup setDate_previous].
  unfold setDate_previous.
  fold (calendarDay (readings clock (pos clock))).
  fold (calendarDay (readings clock (S (pos clock)) - msPerDay)).
  unfold specStreak.
  rewrite !bool_decide_Some_ne, bool_decide_and.
  destruct (_ && _); cbn [fst Statistics.currentStreak]; [done|].
  rewrite streakLoop_spec by (simpl; lia). done.
Qed.

(* ===================================================================== *)
(** * Day count, hours and eligibility *)
(* ===================================================================== *)

Lemma foldl_ext {A B : Type} (f g : B → A → B) (l : list A) (b : B) :
  (∀ acc a, f acc a = g acc a) → foldl f b l = foldl g b l.
Proof. intros H. revert b. induction l as [|a l IH]; intros b; simpl; [done|]. by rewrite H, IH. Qed.

Lemma or_else_hoursContribution h : or_else (Number h) 0 = hoursContribution h.
Proof.
  destruct h as [x|]; [|reflexivity]. unfold or_else, Number, hoursContribution.
  destruct (is_nan x); [done|]. by destruct (x =? 0)%float.
Qed.

Lemma totalHoursOf_spec activities : totalHoursOf activities = specTotalHours activities.
Proof.
  unfold totalHoursOf, specTotalHours.
  apply foldl_ext. intros acc a. by rewrite or_else_hoursContribution.
Qed.

Lemma uniqueDates_size activities :
  length (new_Set (map Activity.date activities)) = distinctDateCount activities.
Proof. apply new_Set_size. Qed.

(** The whole result of [calculateStats], field by field. *)
Lemma calculateStats_fst activities clock :
  (calculateStats activities clock).1
  = Statistics.mk
      (distinctDateCount activities)
      (specAverageHours activities)
      (specStreak (calendarDay (readings clock (pos clock)))
                  (calendarDay (readings clock (S (pos clock)) - msPerDay))
                  (distinctDatesDesc activities))
      (length activities).
Proof.
  unfold calculateStats, specAverageHours. rewrite <- uniqueDates_size, <- totalHoursOf_spec.
  destruct activities as [|a l]; [done|].
  cbn [length Nat.eqb]. fold (distinctDatesDesc (a :: l)).
  destruct (distinctDatesDesc (a :: l)) as [|newest ds] eqn:Hds.
  { by apply distinctDatesDesc_nil in Hds. }
  cbn [length Nat.ltb Nat.leb Date_now readings pos lookup list_lookup].
  unfold setDate_previous.
  fold (calendarDay (readings clock (pos clock))).
  fold (calendarDay (readings clock (S (pos clock)) - msPerDay)).
  unfold specStreak.
  rewrite !bool_decide_Some_ne, bool_decide_and.
  destruct (_ && _); cbn [fst]; [done|].
  rewrite streakLoop_spec by (simpl; lia). done.
Qed.


Lemma distinctDatesDesc_facts activities :
  let ds := distinctDatesDesc activities in
  NoDup ds
  ∧ (∀ s, s ∈ ds ↔ ∃ a, a ∈ activities ∧ Activity.date a = s)
  ∧ Sorted (flip str_le) ds
  ∧ length ds = distinctDateCount activities.
Proof.
  unfold distinctDatesDesc. split_and!.
  - rewrite reverse_Permutation, Array_sort_perm. apply new_Set_NoDup.
  - intros s. rewrite elem_of_reverse, Array_sort_perm, new_Set_elem.
    change (map Activity.date activities) with (Activity.date <$> activities).
    rewrite list_elem_of_fmap.
    split; [intros (a & -> & ?); by exists a|intros (a & ? & <-); by exists a].
  - apply Sorted_reverse. apply (Array_sort_Sorted localeCompare).
    apply localeCompare_antisym.
  - rewrite length_reverse, Array_sort_length. apply uniqueDates_size.
Qed.

Lemma specStreak_bound today yesterday ds : (specStreak today yesterday ds ≤ length ds)%nat.
Proof.
  unfold specStreak. destruct ds as [|newest ds]; [done|].
  case_bool_decide; [lia|]. pose proof (consecutiveRun_bound (newest :: ds)). simpl in *. lia.
Qed.


(** C10. The statistics satisfy
    0 <= currentStreak <= totalActiveDays <= totalSubmissions. *)
Theorem calculateStats_ordering (activities : list Activity.t) (clock : Clock) :
  let st := (calculateStats activities clock).1 in
  (0 ≤ Statistics.currentStreak st
   ∧ Statistics.currentStreak st ≤ Statistics.totalActiveDays st
   ∧ Statistics.totalActiveDays st ≤ Statistics.totalSubmissions st)%nat.
Proof.
  intros st. unfold st. rewrite calculateStats_fst. cbn.
  destruct (distinctDatesDesc_facts activities) as (_ & _ & _ & Hl).
  split_and!; [lia| |].
  - rewrite <- Hl. apply specStreak_bound.
  - rewrite <- uniqueDates_size. etrans; [apply new_Set_length|]. by rewrite length_map.
Qed.

Section Eligibility.
Variable toFixed : float → nat → string.

Lemma calculateEligibility_activeDays activities joiningDate :
  EligibilityResult.activeDays (calculateEligibility toFixed activities joiningDate)
  = distinctDateCount activities.
Proof. unfold calculateEligibility. cbn [EligibilityResult.activeDays]. apply uniqueDates_size. Qed.

Lemma calculateEligibility_averageHours activities joiningDate :
  EligibilityResult.averageHours (calculateEligibility toFixed activities joiningDate)
  = specAverageHours activities.
Proof.
  unfold calculateEligibility, specAverageHours. cbn [EligibilityResult.averageHours].
  by rewrite uniqueDates_size, totalHoursOf_spec.
Qed.

Lemma calculateEligibility_isEligible activities joiningDate :
  let r := calculateEligibility toFixed activities joiningDate in
  EligibilityResult.isEligible r
  = (length (EligibilityResult.reasons r) =? 0)%nat && (0 <? EligibilityResult.activeDays r)%nat.
Proof. reflexivity. Qed.

End Eligibility.

(** C4. Both functions count the active days as the number of distinct date
    strings, total the hours over all records (a missing or non-numeric value
    counting 0), and take averageHours as the total divided by the distinct
    date count when that is positive, else 0; totalSubmissions is the number
    of records. *)
Theorem day_count_and_average
    (toFixed : float → nat → string) (activities : list Activity.t)
    (joiningDate : string) (clock : Clock) :
  let e := calculateEligibility toFixed activities joiningDate in
  let st := (calculateStats activities clock).1 in
  let n := distinctDateCount activities in
  let total := specTotalHours activities in
  let average := if (0 <? n)%nat then (total / float_of_nat n)%float else 0%float in
  EligibilityResult.activeDays e = n
  ∧ EligibilityResult.averageHours e = average
  ∧ Statistics.totalActiveDays st = n
  ∧ Statistics.averageHours st = average
  ∧ Statistics.totalSubmissions st = length activities
  ∧ (∀ a, specTotalHours (activities ++ [a])
          = (total + hoursContribution (Activity.hours a))%float).
Proof.
  intros e st n total average. unfold e, st.
  rewrite calculateStats_fst, calculateEligibility_activeDays, calculateEligibility_averageHours.
  split_and!; try reflexivity.
  intros a. unfold total, specTotalHours. by rewrite foldl_app.
Qed.

(** C5. isEligible is true exactly when the reasons list is empty and
    activeDays is positive; with no record the result is not eligible. *)
Theorem isEligible_iff
    (toFixed : float → nat → string) (activities : list Activity.t) (joiningDate : string) :
  let r := calculateEligibility toFixed activities joiningDate in
  (EligibilityResult.isEligible r = true
   ↔ EligibilityResult.reasons r = [] ∧ (0 < EligibilityResult.activeDays r)%nat)
  ∧ EligibilityResult.isEligible (calculateEligibility toFixed [] joiningDate) = false.
Proof.
  intros r. split; [|reflexivity].
  unfold r. rewrite calculateEligibility_isEligible.
  rewrite andb_true_iff, Nat.eqb_eq, Nat.ltb_lt, length_zero_iff_nil. done.
Qed.

(** C6. On the empty list calculateStats returns all zeros and
    calculateEligibility returns isEligible = false with the "active days"
    reason among its reasons; both return a value. *)
Theorem empty_input (toFixed : float → nat → string) (joiningDate : string) (clock : Clock) :
  calculateStats [] clock = (Statistics.mk 0 0%float 0 0, clock)
  ∧ EligibilityResult.isEligible (calculateEligibility toFixed [] joiningDate) = false
  ∧ "Requires 60 active days (Current: 0)"
      ∈ EligibilityResult.reasons (calculateEligibility toFixed [] joiningDate)
  ∧ includes "Requires 60 active days (Current: 0)" "active days" = true.
Proof.
  split_and!; [reflexivity|reflexivity| |reflexivity].
  vm_compute. apply elem_of_cons. by left.
Qed.

(** C7. The joiningDate argument does not affect any field of the result. *)
Theorem joiningDate_unused
    (toFixed : float → nat → string) (activities : list Activity.t)
    (joiningDate1 joiningDate2 : string) :
  calculateEligibility toFixed activities joiningDate1
  = calculateEligibility toFixed activities joiningDate2.
Proof. reflexivity. Qed.

(** C3. For the records 2024-01-01 (3 hours) and 2024-01-02 (2 hours) the
    result has activeDays = 2, averageHours = 2.5, maxGapDays = 0,
    isEligible = false, and exactly one reason, which mentions 60 active
    days. *)
Theorem scenario_two_days
    (toFixed : float → nat → string) (a b : Activity.t) (joiningDate : string) :
  Activity.date a = "2024-01-01" → Activity.hours a = Some 3%float →
  Activity.date b = "2024-01-02" → Activity.hours b = Some 2%float →
  let r := calculateEligibility toFixed [a; b] joiningDate in
  EligibilityResult.activeDays r = 2%nat
  ∧ EligibilityResult.averageHours r = 2.5%float
  ∧ EligibilityResult.maxGapDays r = 0
  ∧ EligibilityResult.isEligible r = false
  ∧ EligibilityResult.reasons r = ["Requires 60 active days (Current: 2)"]
  ∧ includes "Requires 60 active days (Current: 2)" "60 active days" = true.
Proof.
  destruct a, b. cbn [Activity.date Activity.hours]. intros -> -> -> ->.
  vm_compute. split_and!; reflexivity.
Qed.

Lemma scenario_two_days_witness :
  EligibilityResult.reasons
    (calculateEligibility (fun _ _ => EmptyString)
       [day "2024-01-01" 3; day "2024-01-02" 2] "2024-05-01")
  = ["Requires 60 active days (Current: 2)"].
Proof.
  exact (proj1 (proj2 (proj2 (proj2 (proj2
    (scenario_two_days (fun _ _ => EmptyString) (day "2024-01-01" 3) (day "2024-01-02" 2)
       "2024-05-01" eq_refl eq_refl eq_refl eq_refl)))))).
Defined.




(* ===================================================================== *)
(** * The submission gate *)
(* ===================================================================== *)

Import InternApiService.

Lemma find_date_Some activity l :
  (∃ x, find (fun a => bool_decide (Activity.date a = ActivityInput.date activity)) l = Some x)
  ↔ ∃ a, a ∈ l ∧ Activity.date a = ActivityInput.date activity.
Proof.
  split.
  - intros [x Hx]. apply find_some in Hx as [Hin Hd]. exists x.
    split; [by apply list_elem_of_In|]. by apply bool_decide_eq_true in Hd.
  - intros (a & Hin & Hd).
    destruct (find _ l) as [x|] eqn:Hf; [by exists x|]. exfalso.
    apply list_elem_of_In in Hin.
    pose proof (find_none _ _ Hf a Hin) as Hn. simpl in Hn.
    by apply bool_decide_eq_false in Hn.
Qed.

Lemma submitActivity_throws_iff activity w :
  (submitActivity activity w).1 = Throws "A record for today already exists."
  ↔ ∃ a, a ∈ getActivities (Some (ActivityInput.internId activity)) w
         ∧ Activity.date a = ActivityInput.date activity.
Proof.
  rewrite <- find_date_Some. unfold submitActivity.
  destruct (find _ _) as [x|]; cbn [fst].
  - split; [by exists x|done].
  - split; [|by intros [? ?]]. by destruct (aiScore w).
Qed.

(** With an empty intern id the gate looks at the records of every intern:
    the submission is refused although the intern has no record on that
    date. *)
Lemma submitActivity_empty_internId :
  let w := mkWorld [day "2024-01-01" 3] None [] (steady 1704110400000) in
  let activity := ActivityInput.mk "" "2024-01-01" (Some 3%float) "" "" None in
  ¬ ((submitActivity activity w).1 = Throws "A record for today already exists."
     ↔ ∃ a, a ∈ activities w ∧ sameInternAndDate activity a).
Proof.
  intros w activity [H _].
  destruct (H eq_refl) as (a & Hin & Hid & _).
  apply list_elem_of_singleton in Hin. subst a. discriminate Hid.
Qed.

(** C9, amended. For a submission with a non-empty intern id, submitActivity
    raises the error "A record for today already exists." if and only if the
    store already holds a record of that intern with the submitted date;
    otherwise it returns a new Activity that carries the submitted fields,
    and adding it to a store with at most one record per (internId, date)
    keeps that property. *)
Theorem submitActivity_gate (activity : ActivityInput.t) (w : World) :
  ActivityInput.internId activity ≠ EmptyString →
  let existing := ∃ a, a ∈ activities w ∧ sameInternAndDate activity a in
  ((submitActivity activity w).1 = Throws "A record for today already exists." ↔ existing)
  ∧ (existing → (submitActivity activity w).2 = w)
  ∧ (¬ existing →
      ∃ new, (submitActivity activity w).1 = Returns new
        ∧ Activity.internId new = ActivityInput.internId activity
        ∧ Activity.date new = ActivityInput.date activity
        ∧ Activity.hours new = ActivityInput.hours activity
        ∧ Activity.category new = ActivityInput.category activity
        ∧ Activity.description new = ActivityInput.description activity
        ∧ Activity.proofLink new = ActivityInput.proofLink activity
        ∧ (NoDup (key <$> activities w) → NoDup (key <$> (activities w ++ [new])))).
Proof.
  intros Hid existing.
  assert ((∃ a, a ∈ getActivities (Some (ActivityInput.internId activity)) w
             ∧ Activity.date a = ActivityInput.date activity) ↔ existing) as Hex.
  { unfold getActivities, existing, sameInternAndDate.
    rewrite bool_decide_eq_true_2 by done.
    split.
    - intros (a & [Hi Hin]%list_elem_of_filter & Hd). by exists a.
    - intros (a & Hin & Hi & Hd). exists a. split; [|done].
      by apply list_elem_of_filter. }
  split_and!.
  - by rewrite submitActivity_throws_iff.
  - intros He. apply Hex, find_date_Some in He as [x Hx].
    unfold submitActivity. by rewrite Hx.
  - intros Hne0. pose proof Hne0 as Hne. rewrite <- Hex, <- find_date_Some in Hne.
    unfold submitActivity.
    destruct (find _ _) as [x|]; [destruct Hne; by exists x|].
    cbn [Date_now fst]. eexists. split; [reflexivity|].
    cbn [Activity.internId Activity.date Activity.hours Activity.category
         Activity.description Activity.proofLink].
    split_and!; try reflexivity.
    intros Hnd. rewrite fmap_app. apply NoDup_app. split_and!; [done| |apply NoDup_singleton].
    intros k [a [-> Hin]]%list_elem_of_fmap Hk%list_elem_of_singleton.
    apply Hne0. exists a. split; [done|].
    unfold key in Hk. cbn in Hk. injection Hk as Hk1 Hk2. by split.
Qed.

Lemma submitActivity_gate_witness :
  (submitActivity (ActivityInput.mk "CIAL001" "2024-01-01" (Some 3%float) "" "" None)
     (mkWorld [day "2024-01-01" 3] None [] (steady 1704110400000))).2
  = mkWorld [day "2024-01-01" 3] None [] (steady 1704110400000).
Proof.
  refine (proj1 (proj2 (submitActivity_gate
            (ActivityInput.mk "CIAL001" "2024-01-01" (Some 3%float) "" "" None)
            (mkWorld [day "2024-01-01" 3] None [] (steady 1704110400000)) _)) _).
  - discriminate.
  - exists (day "2024-01-01" 3). split; [apply elem_of_cons; by left|]. split; reflexivity.
Defined.

(* ===================================================================== *)
(** * Worked examples *)
(* ===================================================================== *)

(** Three consecutive days ending today give a streak of 3; the record
    before the one-day gap does not count. *)
Example streak_three_days :
  (calculateStats [day "2024-01-05" 3; day "2024-01-04" 2; day "2024-01-03" 2;
                   day "2024-01-01" 2] (steady 1704456000000)).1
  = Statistics.mk 4 2.25%float 3 4.
Proof. vm_compute. reflexivity. Qed.

(** Two records on one day: one active day, both hours counted. *)
Example duplicate_day :
  (calculateStats [day "2024-01-05" 3; day "2024-01-05" 2] (steady 1704456000000)).1
  = Statistics.mk 1 5%float 1 2.
Proof. vm_compute. reflexivity. Qed.

(** A first submission for a day is accepted and stamped. *)
Example submitActivity_accepts :
  (InternApiService.submitActivity
     (ActivityInput.mk "CIAL001" "2024-01-06" (Some 3%float) "Learning" "notes" None)
     (InternApiService.mkWorld [day "2024-01-05" 3] (Some 8%float) [] (steady 1704542400000))).1
  = InternApiService.Returns
      (Activity.mk "act-1704542400000" "CIAL001" "2024-01-06" (Some 3%float) "Learning" "notes"
         None 8%float "2024-01-06T12:00:00.000Z").
Proof. vm_compute. reflexivity. Qed.

(* ===================================================================== *)
(** * Maps in insertion order *)
(* ===================================================================== *)

Section MapFacts.
Context {V : Type}.
Implicit Types (m : list (string * V)) (k : string) (v : V).

Lemma Map_get_None k m : Map_get k m = None ↔ k ∉ m.*1.
Proof.
  induction m as [|[k' v'] m IH]; simpl.
  - split; [intros _; apply not_elem_of_nil|done].
  - rewrite not_elem_of_cons. case_decide as Hk.
    + split; [done|]. intros [Hne _]. congruence.
    + rewrite IH. split; [intros ?; split; [congruence|done]|by intros [_ ?]].
Qed.

Lemma Map_get_Some k v m : NoDup m.*1 → (Map_get k m = Some v ↔ (k, v) ∈ m).
Proof.
  induction m as [|[k' v'] m IH]; simpl; intros Hnd.
  - split; [done|]. intros H. by apply elem_of_nil in H.
  - apply NoDup_cons in Hnd as [Hk' Hnd]. rewrite elem_of_cons.
    case_decide as Hk.
    + subst k'. split; [intros [= ->]; by left|].
      intros [[= ->]|Hin]; [done|]. destruct Hk'.
      apply list_elem_of_fmap. by exists (k, v).
    + rewrite (IH Hnd). split; [by right|]. intros [[= ? ?]|?]; [congruence|done].
Qed.

Lemma Map_get_set k k' v m :
  Map_get k (Map_set k' v m) = if decide (k' = k) then Some v else Map_get k m.
Proof.
  induction m as [|[k0 v0] m IH]; simpl.
  - done.
  - destruct (decide (k0 = k')) as [->|Hne]; simpl.
    + by repeat case_decide.
    + rewrite IH. repeat case_decide; congruence.
Qed.

Lemma Map_set_fresh k v m : k ∉ m.*1 → Map_set k v m = m ++ [(k, v)].
Proof.
  induction m as [|[k0 v0] m IH]; simpl; [done|].
  intros [Hne Hnin]%not_elem_of_cons. rewrite decide_False by done. by rewrite IH.
Qed.

Lemma Map_set_keys k v m : k ∈ m.*1 → (Map_set k v m).*1 = m.*1.
Proof.
  induction m as [|[k0 v0] m IH]; simpl; [by intros ?%elem_of_nil|].
  intros Hin. case_decide as Hk; simpl; [by subst|].
  apply elem_of_cons in Hin as [?|Hin]; [congruence|]. f_equal. by apply IH.
Qed.

Lemma Map_set_NoDup k v m : NoDup m.*1 → NoDup (Map_set k v m).*1.
Proof.
  intros Hnd. destruct (decide (k ∈ m.*1)) as [Hin|Hnin].
  - by rewrite Map_set_keys.
  - rewrite Map_set_fresh, fmap_app by done. apply NoDup_app. split_and!; [done| |apply NoDup_singleton].
    intros k' Hk' ->%list_elem_of_singleton. done.
Qed.

End MapFacts.

(* ===================================================================== *)
(** * Sorting, continued *)
(* ===================================================================== *)

Lemma Array_sort_sorted {A : Type} (cmp : A → A → comparison) (l : list A) :
  Sorted (cmp_le cmp) l → Array_sort cmp l = l.
Proof.
  induction 1 as [|x l Hs IH Hhd]; [done|].
  unfold Array_sort in *. simpl. rewrite IH.
  destruct Hhd as [|y l' Hxy]; simpl; [done|].
  unfold cmp_le in Hxy. by destruct (cmp x y).
Qed.

Lemma find_snoc {A : Type} (f : A → bool) (l : list A) (x : A) :
  find f (l ++ [x]) = match find f l with
                      | Some y => Some y
                      | None => if f x then Some x else None
                      end.
Proof. induction l as [|a l IH]; simpl; [done|]. by destruct (f a). Qed.

Lemma find_Some_elem {A : Type} (f : A → bool) (l : list A) (x : A) :
  find f l = Some x → x ∈ l ∧ f x = true.
Proof. intros [? ?]%find_some. split; [by apply list_elem_of_In|done]. Qed.

Lemma find_None_elem {A : Type} (f : A → bool) (l : list A) :
  find f l = None ↔ ∀ x, x ∈ l → f x = false.
Proof.
  split.
  - intros H x Hx. apply (find_none _ _ H). by apply list_elem_of_In.
  - intros H. destruct (find f l) as [y|] eqn:Hf; [|done].
    apply find_Some_elem in Hf as [Hy Hfy]. rewrite (H y Hy) in Hfy. done.
Qed.

(* ===================================================================== *)
(** * The merge of the dashboard *)
(* ===================================================================== *)

Import InternDashboard.

Lemma byDateDesc_antisym a b : byDateDesc a b = CompOpp (byDateDesc b a).
Proof. apply String.compare_antisym. Qed.

Lemma representative_elem k l y :
  representative k l = Some y → y ∈ l ∧ mergeKey y = k.
Proof.
  unfold representative. destruct (find _ l) as [z|] eqn:Hf.
  - intros [= <-]. apply find_Some_elem in Hf as [? [? _]%andb_true_iff].
    split; [done|]. by apply bool_decide_eq_true in H0.
  - intros [? ?%bool_decide_eq_true]%find_Some_elem. done.
Qed.

Lemma representative_is_Some k l x :
  x ∈ l → mergeKey x = k → is_Some (representative k l).
Proof.
  intros Hx Hk. unfold representative. destruct (find _ l) as [z|]; [by eexists|].
  destruct (find (λ x0, bool_decide (mergeKey x0 = k)) l) as [z|] eqn:Hf; [by eexists|].
  rewrite find_None_elem in Hf. specialize (Hf x Hx).
  rewrite bool_decide_eq_true_2 in Hf; done.
Qed.

(** The representative has a truthy score as soon as one candidate has. *)
Lemma representative_truthy k l x y :
  x ∈ l → mergeKey x = k → truthy (Activity.qualityScore x) = true →
  representative k l = Some y → truthy (Activity.qualityScore y) = true.
Proof.
  intros Hx Hk Ht. unfold representative. destruct (find _ l) as [z|] eqn:Hf.
  - intros [= <-]. by apply find_Some_elem in Hf as [_ [_ ?]%andb_true_iff].
  - rewrite find_None_elem in Hf. specialize (Hf x Hx).
    rewrite bool_decide_eq_true_2, Ht in Hf; done.
Qed.

Lemma representative_snoc k l x :
  representative k (l ++ [x]) =
  match representative k l with
  | None => if bool_decide (mergeKey x = k) then Some x else None
  | Some e =>
      if bool_decide (mergeKey x = k) && truthy (Activity.qualityScore x)
         && negb (truthy (Activity.qualityScore e))
      then Some x else Some e
  end.
Proof.
  unfold representative. rewrite !find_snoc.
  destruct (find (λ x0, bool_decide (mergeKey x0 = k) && truthy (Activity.qualityScore x0)) l)
    as [z|] eqn:Hf1.
  - apply find_Some_elem in Hf1 as [_ [_ Hz]%andb_true_iff]. rewrite Hz.
    by rewrite andb_false_r.
  - destruct (find (λ x0, bool_decide (mergeKey x0 = k)) l) as [e|] eqn:Hf2.
    + rewrite find_None_elem in Hf1.
      apply find_Some_elem in Hf2 as [He Hke]. specialize (Hf1 e He).
      rewrite Hke in Hf1. simpl in Hf1. rewrite Hf1. simpl. rewrite andb_true_r.
      by destruct (_ && _).
    + destruct (bool_decide (mergeKey x = k)); simpl; [|done].
      by destruct (truthy _).
Qed.

(** The map built by the loop: one entry per key, holding the
    representative of the key. *)
Lemma foldl_mergeStep_spec l :
  let m := foldl mergeStep [] l in
  NoDup m.*1 ∧ ∀ k, Map_get k m = representative k l.
Proof.
  induction l as [|x l IH] using rev_ind; simpl.
  - split; [apply NoDup_nil_2|done].
  - rewrite foldl_app. simpl. destruct IH as [Hnd Hget].
    set (m := foldl mergeStep [] l) in *. unfold mergeStep. unfold Map_has.
    rewrite (Hget (mergeKey x)).
    assert (∀ k, Map_get k (Map_set (mergeKey x) x m)
                 = if decide (mergeKey x = k) then Some x else representative k l) as Hset.
    { intros k. by rewrite Map_get_set, Hget. }
    destruct (representative (mergeKey x) l) as [e|] eqn:Hrep; simpl.
    + destruct (truthy (Activity.qualityScore x)) eqn:Htx; simpl;
        [destruct (truthy (Activity.qualityScore e)) eqn:Hte; simpl|].
      * split; [done|]. intros k. rewrite representative_snoc, Hget.
        destruct (representative k l) as [e'|] eqn:Hk.
        -- case_bool_decide as Hkx; simpl; [|done].
           subst k. rewrite Hrep in Hk. injection Hk as <-. by rewrite Htx, Hte.
        -- case_bool_decide as Hkx; [|done]. congruence.
      * split; [by apply Map_set_NoDup|]. intros k. rewrite Hset, representative_snoc.
        case_decide as Hkx.
        -- subst k. rewrite Hrep, bool_decide_eq_true_2, Htx, Hte by done. done.
        -- rewrite bool_decide_eq_false_2 by done. simpl. by destruct (representative k l).
      * split; [done|]. intros k. rewrite representative_snoc, Hget, Htx.
        rewrite andb_false_r. simpl.
        destruct (representative k l) eqn:Hk; [done|].
        case_bool_decide; [congruence|done].
    + split; [by apply Map_set_NoDup|]. intros k. rewrite Hset, representative_snoc.
      case_decide as Hkx.
      * subst k. rewrite Hrep. by rewrite bool_decide_eq_true_2.
      * rewrite bool_decide_eq_false_2 by done. simpl. by destruct (representative k l).
Qed.

Lemma mergeActivities_perm prev cloudData :
  mergeActivities prev cloudData ≡ₚ Map_values (foldl mergeStep [] (prev ++ cloudData)).
Proof. apply Array_sort_perm. Qed.

Lemma merge_map_values l y :
  y ∈ Map_values (foldl mergeStep [] l) ↔ representative (mergeKey y) l = Some y.
Proof.
  destruct (foldl_mergeStep_spec l) as [Hnd Hget]. simpl in *.
  unfold Map_values. change (map snd ?m) with (m.*2). rewrite list_elem_of_fmap. split.
  - intros ([k v] & -> & Hin). simpl.
    apply (Map_get_Some _ _ _ Hnd) in Hin. rewrite Hget in Hin.
    pose proof (representative_elem _ _ _ Hin) as [_ ->]. done.
  - intros Hrep. exists (mergeKey y, y). split; [done|].
    apply (Map_get_Some _ _ _ Hnd). by rewrite Hget.
Qed.

Lemma merge_map_keys l :
  (foldl mergeStep [] l).*1 = mergeKey <$> Map_values (foldl mergeStep [] l).
Proof.
  destruct (foldl_mergeStep_spec l) as [Hnd Hget]. simpl in *.
  unfold Map_values. change (map snd ?m) with (m.*2).
  rewrite <- list_fmap_compose. apply list_fmap_ext. intros i [k v] Hi. simpl.
  apply list_elem_of_lookup_2 in Hi. apply (Map_get_Some _ _ _ Hnd) in Hi.
  rewrite Hget in Hi. by apply representative_elem in Hi as [_ ->].
Qed.

Import InternDashboard.

Lemma mergeActivities_elem prev cloudData y :
  y ∈ mergeActivities prev cloudData
  ↔ representative (mergeKey y) (prev ++ cloudData) = Some y.
Proof. rewrite mergeActivities_perm. apply merge_map_values. Qed.

Lemma mergeActivities_keys prev cloudData :
  NoDup (mergeKey <$> mergeActivities prev cloudData).
Proof.
  rewrite mergeActivities_perm, <- merge_map_keys.
  apply (foldl_mergeStep_spec (prev ++ cloudData)).
Qed.

Lemma mergeActivities_newestFirst prev cloudData :
  newestFirst (mergeActivities prev cloudData).
Proof.
  unfold newestFirst, mergeActivities.
  apply (Array_sort_Sorted byDateDesc). apply byDateDesc_antisym.
Qed.

Section Updaters.
Variable JSON_stringify : list Activity.t → string.

(** X1. The merge keeps exactly one record per key (the id, or intern and
    date when the id is empty): no key occurs twice in the new list, every
    record of the new list comes from the list on screen or from the fetched
    records, and every key of those is still present. *)
Theorem fetchData_update_keys
    (STORAGE_KEY : string) (cloudData prev : list Activity.t) (localStorage : gmap string string) :
  let r := (fetchData_update JSON_stringify STORAGE_KEY cloudData prev localStorage).1 in
  NoDup (mergeKey <$> r)
  ∧ (∀ y, y ∈ r → y ∈ prev ∨ y ∈ cloudData)
  ∧ (∀ x, x ∈ prev ∨ x ∈ cloudData → ∃ y, y ∈ r ∧ mergeKey y = mergeKey x).
Proof.
  cbn [fetchData_update fst]. split_and!.
  - apply mergeActivities_keys.
  - intros y Hy%mergeActivities_elem. apply representative_elem in Hy as [Hy _].
    by apply elem_of_app in Hy.
  - intros x Hx. rewrite <- elem_of_app in Hx.
    destruct (representative_is_Some (mergeKey x) _ x Hx eq_refl) as [y Hy].
    exists y. pose proof (representative_elem _ _ _ Hy) as [_ Hk].
    split; [|done]. apply mergeActivities_elem. by rewrite Hk.
Qed.

(** X2. Among the records that share a key, the merge keeps the first one
    (list on screen before fetched records) that has a truthy quality score,
    and the first one of all when none has; so a scored record is never
    replaced by, or dropped for, an unscored one. *)
Theorem fetchData_update_representative
    (STORAGE_KEY : string) (cloudData prev : list Activity.t) (localStorage : gmap string string) :
  let r := (fetchData_update JSON_stringify STORAGE_KEY cloudData prev localStorage).1 in
  (∀ y, y ∈ r ↔ representative (mergeKey y) (prev ++ cloudData) = Some y)
  ∧ (∀ x y, x ∈ prev ∨ x ∈ cloudData → truthy (Activity.qualityScore x) = true →
            y ∈ r → mergeKey y = mergeKey x → truthy (Activity.qualityScore y) = true).
Proof.
  cbn [fetchData_update fst]. split.
  - apply mergeActivities_elem.
  - intros x y Hx Ht Hy%mergeActivities_elem Hk. rewrite <- elem_of_app in Hx.
    rewrite Hk in Hy. exact (representative_truthy _ _ x y Hx eq_refl Ht Hy).
Qed.

(** X3. The merged list is ordered newest date first, and it is what is
    saved under the storage key of the intern; no other key of the storage
    changes. *)
Theorem fetchData_update_sorted
    (STORAGE_KEY : string) (cloudData prev : list Activity.t) (localStorage : gmap string string) :
  let '(r, storage) := fetchData_update JSON_stringify STORAGE_KEY cloudData prev localStorage in
  newestFirst r
  ∧ storage !! STORAGE_KEY = Some (JSON_stringify r)
  ∧ (∀ k, k ≠ STORAGE_KEY → storage !! k = localStorage !! k).
Proof.
  cbn [fetchData_update]. split_and!.
  - apply mergeActivities_newestFirst.
  - apply lookup_insert_eq.
  - intros k Hk. by apply lookup_insert_ne.
Qed.

End Updaters.

(** Merging records whose keys are all fresh appends them in order. *)
Lemma foldl_mergeStep_fresh l m :
  NoDup (mergeKey <$> l) → (∀ x, x ∈ l → mergeKey x ∉ m.*1) →
  foldl mergeStep m l = m ++ ((λ x, (mergeKey x, x)) <$> l).
Proof.
  revert m. induction l as [|x l IH]; intros m Hnd Hfresh; simpl.
  - by rewrite app_nil_r.
  - rewrite fmap_cons in Hnd. apply NoDup_cons in Hnd as [Hx Hnd].
    assert (mergeKey x ∉ m.*1) as Hxm by (apply Hfresh, elem_of_cons; by left).
    unfold mergeStep at 2. unfold Map_has.
    rewrite (proj2 (Map_get_None _ _) Hxm). simpl.
    rewrite Map_set_fresh by done. rewrite IH; [by rewrite <- app_assoc|done|].
    intros y Hy. rewrite fmap_app, elem_of_app. intros [Hin|Hin].
    + apply (Hfresh y); [apply elem_of_cons; by right|done].
    + simpl in Hin. apply list_elem_of_singleton in Hin.
      apply Hx. rewrite <- Hin. apply list_elem_of_fmap. by exists y.
Qed.

(** Records that would neither add a key nor bring a first score leave the
    map as it is. *)
Lemma foldl_mergeStep_stable l m :
  (∀ x, x ∈ l → ∃ e, Map_get (mergeKey x) m = Some e
                     ∧ (truthy (Activity.qualityScore x) = true
                        → truthy (Activity.qualityScore e) = true)) →
  foldl mergeStep m l = m.
Proof.
  induction l as [|x l IH]; intros H; simpl; [done|].
  destruct (H x) as (e & He & Ht); [apply elem_of_cons; by left|].
  assert (mergeStep m x = m) as ->.
  { unfold mergeStep, Map_has. rewrite He. simpl.
    destruct (truthy (Activity.qualityScore x)); [|done]. by rewrite Ht. }
  apply IH. intros y Hy. apply H, elem_of_cons. by right.
Qed.

Lemma Map_get_pairs l y :
  NoDup (mergeKey <$> l) → y ∈ l →
  Map_get (mergeKey y) ((λ x, (mergeKey x, x)) <$> l) = Some y.
Proof.
  intros Hnd Hy.
  assert (((λ x, (mergeKey x, x)) <$> l).*1 = mergeKey <$> l) as Hk.
  { rewrite <- list_fmap_compose. by apply list_fmap_ext. }
  apply Map_get_Some; [by rewrite Hk|].
  apply list_elem_of_fmap. by exists y.
Qed.

Lemma mergeActivities_again prev cloudData again :
  (∀ x, x ∈ again → x ∈ prev ∨ x ∈ cloudData) →
  mergeActivities (mergeActivities prev cloudData) again = mergeActivities prev cloudData.
Proof.
  intros Hagain. set (S := mergeActivities prev cloudData).
  pose proof (mergeActivities_keys prev cloudData) as Hnd. fold S in Hnd.
  unfold mergeActivities at 1. rewrite foldl_app.
  rewrite (foldl_mergeStep_fresh S []) by (try done; intros ? _; apply not_elem_of_nil).
  rewrite app_nil_l, foldl_mergeStep_stable.
  - unfold Map_values. change (map snd ?m) with (m.*2).
    rewrite <- list_fmap_compose. rewrite (list_fmap_ext _ id S) by done.
    rewrite list_fmap_id. apply Array_sort_sorted.
    apply (Array_sort_Sorted byDateDesc). apply byDateDesc_antisym.
  - intros x Hx. specialize (Hagain x Hx). rewrite <- elem_of_app in Hagain.
    destruct (representative_is_Some (mergeKey x) _ x Hagain eq_refl) as [y Hy].
    pose proof (representative_elem _ _ _ Hy) as [_ Hk].
    assert (y ∈ S) as HyS by (apply mergeActivities_elem; by rewrite Hk).
    exists y. split.
    + rewrite <- Hk. by apply Map_get_pairs.
    + intros Ht. exact (representative_truthy _ _ x y Hagain eq_refl Ht Hy).
Qed.

(** X4. Synchronising again changes nothing: merging into the merged list
    any records that already took part in the merge (the fetched records
    once more, the former list, or none) gives the merged list back. *)
Theorem fetchData_update_again
    (JSON_stringify : list Activity.t → string) (STORAGE_KEY : string)
    (cloudData prev again : list Activity.t) (localStorage : gmap string string) :
  (∀ x, x ∈ again → x ∈ prev ∨ x ∈ cloudData) →
  let '(r, storage) := fetchData_update JSON_stringify STORAGE_KEY cloudData prev localStorage in
  fetchData_update JSON_stringify STORAGE_KEY again r storage = (r, storage).
Proof.
  intros Hagain. unfold fetchData_update. cbv beta iota zeta.
  rewrite mergeActivities_again by done. f_equal. apply insert_insert_eq.
Qed.

Lemma fetchData_update_again_witness :
  let prev := [day "2024-01-02" 3] in
  let cloudData := [day "2024-01-03" 2; day "2024-01-02" 3] in
  let '(r, storage) := fetchData_update (fun _ => "json") "cial_activities_CIAL001" cloudData prev ∅ in
  fetchData_update (fun _ => "json") "cial_activities_CIAL001" cloudData r storage = (r, storage).
Proof.
  refine (fetchData_update_again (fun _ => "json") "cial_activities_CIAL001"
            [day "2024-01-03" 2; day "2024-01-02" 3] [day "2024-01-02" 3]
            [day "2024-01-03" 2; day "2024-01-02" 3] ∅ _).
  intros x Hx. by right.
Defined.

Import InternDashboard.

Lemma some_date_iff (newAct : Activity.t) (prev : list Activity.t) :
  existsb (fun a => bool_decide (Activity.date a = Activity.date newAct)) prev = true
  ↔ ∃ a, a ∈ prev ∧ Activity.date a = Activity.date newAct.
Proof.
  rewrite existsb_exists. split; intros (a & Hin & Hd); exists a.
  - split; [by apply list_elem_of_In|by apply bool_decide_eq_true in Hd].
  - split; [by apply list_elem_of_In|by apply bool_decide_eq_true].
Qed.

Lemma addSubmission_fresh newAct prev :
  (¬ ∃ a, a ∈ prev ∧ Activity.date a = Activity.date newAct) →
  addSubmission newAct prev = Array_sort byDateDesc (newAct :: prev).
Proof.
  intros H. unfold addSubmission.
  destruct (existsb _ prev) eqn:He; [|done]. by apply some_date_iff in He.
Qed.

(** X5. A submission whose date is already on screen changes neither the
    list nor the storage; any other submission is added: the new list holds
    the new record and the former ones, newest date first, and is saved. *)
Theorem handleSubmissionSuccess_cases
    (JSON_stringify : list Activity.t → string) (STORAGE_KEY : string)
    (newAct : Activity.t) (prev : list Activity.t) (localStorage : gmap string string) :
  let '(r, storage) :=
    handleSubmissionSuccess JSON_stringify STORAGE_KEY newAct prev localStorage in
  ((∃ a, a ∈ prev ∧ Activity.date a = Activity.date newAct) →
     r = prev ∧ storage = localStorage)
  ∧ ((¬ ∃ a, a ∈ prev ∧ Activity.date a = Activity.date newAct) →
     r ≡ₚ newAct :: prev ∧ newestFirst r ∧ storage !! STORAGE_KEY = Some (JSON_stringify r)).
Proof.
  unfold handleSubmissionSuccess.
  destruct (existsb _ prev) eqn:He.
  - apply some_date_iff in He. split; [done|]. intros Hn. by destruct Hn.
  - split.
    + intros Hex%some_date_iff. congruence.
    + intros Hn. rewrite addSubmission_fresh by done. split_and!.
      * apply Array_sort_perm.
      * apply (Array_sort_Sorted byDateDesc), byDateDesc_antisym.
      * apply lookup_insert_eq.
Qed.

Lemma handleSubmissionSuccess_cases_witness :
  (handleSubmissionSuccess (fun _ => "json") "cial_activities_CIAL001"
     (day "2024-01-02" 2) [day "2024-01-02" 3; day "2024-01-01" 3] ∅).1
  = [day "2024-01-02" 3; day "2024-01-01" 3].
Proof.
  refine (proj1 (proj1 (handleSubmissionSuccess_cases (fun _ => "json") "cial_activities_CIAL001"
            (day "2024-01-02" 2) [day "2024-01-02" 3; day "2024-01-01" 3] ∅) _)).
  exists (day "2024-01-02" 3). split; [apply elem_of_cons; by left|reflexivity].
Defined.

(** X6. The updater keeps two properties of the list on screen: at most
    one record per date, and the order newest date first. *)
Theorem handleSubmissionSuccess_invariants
    (JSON_stringify : list Activity.t → string) (STORAGE_KEY : string)
    (newAct : Activity.t) (prev : list Activity.t) (localStorage : gmap string string) :
  let r := (handleSubmissionSuccess JSON_stringify STORAGE_KEY newAct prev localStorage).1 in
  (NoDup (Activity.date <$> prev) → NoDup (Activity.date <$> r))
  ∧ (newestFirst prev → newestFirst r).
Proof.
  unfold handleSubmissionSuccess.
  destruct (existsb _ prev) eqn:He; cbn [fst]; [done|].
  assert (¬ ∃ a, a ∈ prev ∧ Activity.date a = Activity.date newAct) as Hn.
  { intros Hex%some_date_iff. congruence. }
  rewrite addSubmission_fresh by done. split.
  - intros Hnd. rewrite Array_sort_perm, fmap_cons. apply NoDup_cons. split; [|done].
    intros (a & Ha & Hin)%list_elem_of_fmap. apply Hn. by exists a.
  - intros _. apply (Array_sort_Sorted byDateDesc), byDateDesc_antisym.
Qed.

Lemma handleSubmissionSuccess_invariants_witness :
  NoDup (Activity.date <$>
    (handleSubmissionSuccess (fun _ => "json") "cial_activities_CIAL001"
       (day "2024-01-03" 2) [day "2024-01-02" 3; day "2024-01-01" 3] ∅).1).
Proof.
  refine (proj1 (handleSubmissionSuccess_invariants (fun _ => "json") "cial_activities_CIAL001"
            (day "2024-01-03" 2) [day "2024-01-02" 3; day "2024-01-01" 3] ∅) _).
  apply NoDup_cons. split; [|apply NoDup_singleton].
  intros H%list_elem_of_singleton. discriminate H.
Defined.

Lemma byDate_le a b : cmp_le byDate a b ↔ str_le (Activity.date a) (Activity.date b).
Proof. done. Qed.

Lemma str_le_chronological s s' t t' :
  Date_getTime s = Some t → Date_getTime s' = Some t' → str_le s s' → t ≤ t'.
Proof.
  intros Hs Hs' [->|Hlt]%str_le_alt.
  - rewrite Hs in Hs'. injection Hs' as ->. lia.
  - pose proof (Date_getTime_Lt _ _ _ _ Hs Hs' Hlt). lia.
Qed.

(** X7. firstLogDate is null exactly when there is no record; otherwise it
    is the date of one of the records, no record has a date that sorts
    before it, and among valid calendar days it is the earliest. *)
Theorem firstLogDate_earliest (activities : list Activity.t) :
  (firstLogDate activities = None ↔ activities = [])
  ∧ ∀ d, firstLogDate activities = Some d →
      (∃ a, a ∈ activities ∧ Activity.date a = d)
      ∧ (∀ a, a ∈ activities → str_le d (Activity.date a))
      ∧ (∀ a t t', a ∈ activities → Date_getTime d = Some t →
                   Date_getTime (Activity.date a) = Some t' → t ≤ t').
Proof.
  unfold firstLogDate. destruct activities as [|a0 l]; [by split|].
  cbn [length Nat.eqb].
  pose proof (Array_sort_perm byDate (a0 :: l)) as Hp.
  pose proof (sorted_dates (a0 :: l)) as Hs.
  apply (Sorted_StronglySorted str_le) in Hs.
  destruct (Array_sort byDate (a0 :: l)) as [|f rest] eqn:Hsort.
  { apply Permutation_nil_l in Hp. done. }
  split; [done|]. intros d [= <-].
  assert (∀ a, a ∈ a0 :: l → str_le (Activity.date f) (Activity.date a)) as Hle.
  { intros a Ha. rewrite <- Hp in Ha. rewrite fmap_cons in Hs.
    apply StronglySorted_inv in Hs as [_ Hall].
    apply elem_of_cons in Ha as [->|Ha].
    - apply str_le_alt. by left.
    - rewrite Forall_forall in Hall. apply Hall.
      apply list_elem_of_fmap. by exists a. }
  split_and!.
  - exists f. split; [|done]. rewrite <- Hp. apply elem_of_cons. by left.
  - done.
  - intros a t t' Ha Ht Ht'. eapply str_le_chronological; [done..|]. by apply Hle.
Qed.

Lemma firstLogDate_earliest_witness :
  ∃ a, a ∈ [day "2024-01-05" 3; day "2024-01-02" 2] ∧ Activity.date a = "2024-01-02".
Proof.
  exact (proj1 (proj2 (firstLogDate_earliest [day "2024-01-05" 3; day "2024-01-02" 2])
                  "2024-01-02" eq_refl)).
Defined.

(* ===================================================================== *)
(** * The interns of the service *)
(* ===================================================================== *)

Section Directory.
Import InternDirectory.
Variable MOCK_ADMIN : User.t.
Variable toUpperCase : string → string.
Variable trim : string → string.

Lemma directory_find interns :
  is_Some (find (fun i : string * string => bool_decide (i.2 = User.internId MOCK_ADMIN))
             (map (fun i => (User.name i, User.internId i)) interns))
  ↔ ∃ i, i ∈ interns ∧ User.internId i = User.internId MOCK_ADMIN.
Proof.
  split.
  - intros [e [He Hid]%find_Some_elem]. apply bool_decide_eq_true in Hid.
    change (map ?f ?l) with (f <$> l) in He.
    apply list_elem_of_fmap in He as (i & -> & Hi). by exists i.
  - intros (i & Hi & Hid).
    destruct (find _ _) as [e|] eqn:Hf; [by eexists|]. exfalso.
    rewrite find_None_elem in Hf. specialize (Hf (User.name i, User.internId i)).
    rewrite bool_decide_eq_true_2 in Hf by done.
    enough (true = false) by done. apply Hf.
    change (map ?f ?l) with (f <$> l). apply list_elem_of_fmap. by exists i.
Qed.

(** X8. The directory always offers the admin id: it lists every intern, in
    order, and puts the admin in front exactly when no intern carries the
    admin id. *)
Theorem getInternDirectory_admin (interns : list User.t) :
  let dir := getInternDirectory MOCK_ADMIN interns in
  (∃ e, e ∈ dir ∧ e.2 = User.internId MOCK_ADMIN)
  ∧ ((∃ i, i ∈ interns ∧ User.internId i = User.internId MOCK_ADMIN) →
       dir = map (fun i => (User.name i, User.internId i)) interns)
  ∧ ((¬ ∃ i, i ∈ interns ∧ User.internId i = User.internId MOCK_ADMIN) →
       dir = (User.name MOCK_ADMIN, User.internId MOCK_ADMIN) :: map (fun i => (User.name i, User.internId i)) interns).
Proof.
  unfold getInternDirectory. pose proof (directory_find interns) as Hf.
  destruct (find _ _) as [e|] eqn:He.
  - split_and!.
    + apply find_Some_elem in He as [Hin Hid]. apply bool_decide_eq_true in Hid. by exists e.
    + done.
    + intros Hn. destruct Hn. apply Hf. by eexists.
  - split_and!.
    + exists (User.name MOCK_ADMIN, User.internId MOCK_ADMIN). split; [apply elem_of_cons; by left|done].
    + intros Hex. apply Hf in Hex as [? ?]. done.
    + done.
Qed.

Lemma login_find interns normalizedId :
  find (fun u => bool_decide (toUpperCase (User.internId u) = normalizedId)) interns = None
  ↔ ∀ u, u ∈ interns → toUpperCase (User.internId u) ≠ normalizedId.
Proof.
  rewrite find_None_elem. split; intros H u Hu; specialize (H u Hu).
  - by apply bool_decide_eq_false in H.
  - by apply bool_decide_eq_false.
Qed.

(** X9. loginByName gives the admin whenever the trimmed, upper-cased id is
    the admin id, whatever the interns; otherwise it gives an intern whose
    upper-cased id equals it, and null exactly when there is none.  The name
    typed in plays no part. *)
Theorem loginByName_result (interns : list User.t) (name internId : string) :
  let normalizedId := trim (toUpperCase internId) in
  let login := loginByName MOCK_ADMIN toUpperCase trim interns in
  (normalizedId = User.internId MOCK_ADMIN → login name internId = Some MOCK_ADMIN)
  ∧ (∀ u, normalizedId ≠ User.internId MOCK_ADMIN → login name internId = Some u →
          u ∈ interns ∧ toUpperCase (User.internId u) = normalizedId)
  ∧ (login name internId = None
     ↔ normalizedId ≠ User.internId MOCK_ADMIN
       ∧ ∀ u, u ∈ interns → toUpperCase (User.internId u) ≠ normalizedId)
  ∧ (∀ name', login name' internId = login name internId).
Proof.
  unfold loginByName. split_and!.
  - intros ->. by rewrite bool_decide_eq_true_2.
  - intros u Hne. rewrite bool_decide_eq_false_2 by done.
    intros [Hin Hid]%find_Some_elem. by apply bool_decide_eq_true in Hid.
  - case_bool_decide as Hid.
    + split; [done|]. by intros [? _].
    + rewrite login_find. split; [done|by intros [_ ?]].
  - done.
Qed.

(** X10. Everyone the directory lists can log in with the listed id,
    provided the ids are in normal form: upper-casing and trimming an
    intern's id gives its upper-cased form, and leaves the admin id as it
    is. *)
Theorem directory_entries_log_in (interns : list User.t) :
  (∀ i, i ∈ interns →
        trim (toUpperCase (User.internId i)) = toUpperCase (User.internId i)) →
  trim (toUpperCase (User.internId MOCK_ADMIN)) = User.internId MOCK_ADMIN →
  ∀ e, e ∈ getInternDirectory MOCK_ADMIN interns →
       is_Some (loginByName MOCK_ADMIN toUpperCase trim interns e.1 e.2).
Proof.
  intros Hnorm Hadmin e He.
  assert (e = (User.name MOCK_ADMIN, User.internId MOCK_ADMIN) ∨ ∃ i, i ∈ interns ∧ e = (User.name i, User.internId i)) as [->|(i & Hi & ->)].
  { unfold getInternDirectory in He. destruct (find _ _).
    - right. change (map ?f ?l) with (f <$> l) in He.
      apply list_elem_of_fmap in He as (i & -> & Hi). by exists i.
    - apply elem_of_cons in He as [->|He]; [by left|]. right.
      change (map ?f ?l) with (f <$> l) in He.
      apply list_elem_of_fmap in He as (i & -> & Hi). by exists i. }
  - unfold loginByName. cbn [fst snd]. rewrite bool_decide_eq_true_2 by done. by eexists.
  - unfold loginByName. cbn [fst snd]. case_bool_decide; [by eexists|].
    destruct (find _ interns) as [u|] eqn:Hf; [by eexists|]. exfalso.
    rewrite login_find in Hf. apply (Hf i Hi). by rewrite Hnorm.
Qed.

End Directory.

Lemma getInternDirectory_admin_witness :
  InternDirectory.getInternDirectory (User.mk "0" "Admin" "ADMIN001" "" ADMIN "Active" "")
    [User.mk "1" "Asha" "CIAL001" "" INTERN "Active" ""]
  = [("Admin", "ADMIN001"); ("Asha", "CIAL001")].
Proof.
  refine (proj2 (proj2 (getInternDirectory_admin
            (User.mk "0" "Admin" "ADMIN001" "" ADMIN "Active" "")
            [User.mk "1" "Asha" "CIAL001" "" INTERN "Active" ""])) _).
  intros (i & Hi & Hid). apply list_elem_of_singleton in Hi. subst i. discriminate Hid.
Defined.

Lemma directory_entries_log_in_witness :
  is_Some (InternDirectory.loginByName
             (User.mk "0" "Admin" "ADMIN001" "" ADMIN "Active" "") (fun s => s) (fun s => s)
             [User.mk "1" "Asha" "CIAL001" "" INTERN "Active" ""] "Asha" "CIAL001").
Proof.
  refine (directory_entries_log_in
            (User.mk "0" "Admin" "ADMIN001" "" ADMIN "Active" "") (fun s => s) (fun s => s)
            [User.mk "1" "Asha" "CIAL001" "" INTERN "Active" ""] _ _ ("Asha", "CIAL001") _).
  - intros i _. reflexivity.
  - reflexivity.
  - apply elem_of_cons. right. apply elem_of_cons. by left.
Defined.

Lemma loginByName_result_witness :
  InternDirectory.loginByName
    (User.mk "0" "Admin" "ADMIN001" "" ADMIN "Active" "") (fun s => s) (fun s => s)
    [User.mk "1" "Asha" "ADMIN001" "" INTERN "Active" ""] "Asha" "ADMIN001"
  = Some (User.mk "0" "Admin" "ADMIN001" "" ADMIN "Active" "").
Proof.
  exact (proj1 (loginByName_result
                  (User.mk "0" "Admin" "ADMIN001" "" ADMIN "Active" "") (fun s => s) (fun s => s)
                  [User.mk "1" "Asha" "ADMIN001" "" INTERN "Active" ""] "Asha" "ADMIN001")
               eq_refl).
Defined.

(* ===================================================================== *)
(** * The activities of the service *)
(* ===================================================================== *)

Import InternApiService.

(** X11. getActivities returns records of the store in store order; for a
    non-empty id exactly those of that intern, and the whole store when the
    id is left out or empty. *)
Theorem getActivities_result (internId : option string) (w : World) :
  sublist (getActivities internId w) (activities w)
  ∧ (∀ i a, internId = Some i → i ≠ EmptyString →
            (a ∈ getActivities internId w ↔ a ∈ activities w ∧ Activity.internId a = i))
  ∧ (internId = None ∨ internId = Some EmptyString → getActivities internId w = activities w).
Proof.
  unfold getActivities. split_and!.
  - destruct internId as [i|]; [|done]. case_bool_decide; [|done]. apply sublist_filter.
  - intros i a -> Hi. rewrite bool_decide_eq_true_2 by done.
    rewrite list_elem_of_filter. tauto.
  - intros [->| ->]; [done|]. by rewrite bool_decide_eq_false_2 by (intros H; by apply H).
Qed.

Lemma getActivities_result_witness :
  getActivities (Some EmptyString)
    (mkWorld [day "2024-01-01" 3] None [] (steady 1704110400000))
  = [day "2024-01-01" 3].
Proof.
  exact (proj2 (proj2 (getActivities_result (Some EmptyString)
                  (mkWorld [day "2024-01-01" 3] None [] (steady 1704110400000))))
               (or_intror eq_refl)).
Defined.

Lemma submitActivity_returns activity w new :
  (submitActivity activity w).1 = Returns new →
  submitActivity activity w
  = (Returns new,
     mkWorld (activities w) (aiScore w) (posted w ++ [new])
       (mkClock (readings (clock w)) (S (S (pos (clock w))))))
  ∧ new = Activity.mk
            ("act-" +:+ string_of_Z (readings (clock w) (pos (clock w))))
            (ActivityInput.internId activity) (ActivityInput.date activity)
            (ActivityInput.hours activity) (ActivityInput.category activity)
            (ActivityInput.description activity) (ActivityInput.proofLink activity)
            (match aiScore w with Some score => or_else score 5%float | None => 5%float end)
            (toISOString (readings (clock w) (S (pos (clock w))))).
Proof.
  unfold submitActivity. destruct (find _ _); [done|].
  cbn [Date_now fst readings pos]. intros [= <-]. done.
Qed.

Lemma or_else_truthy x d : truthy d = true → truthy (or_else x d) = true.
Proof.
  intros Hd. unfold or_else. destruct (is_nan x || (x =? 0)%float) eqn:Hx; [done|].
  unfold truthy. by rewrite Hx.
Qed.

(** X12. A submission that is accepted consumes two clock readings, posts
    exactly the returned record and leaves the fetched records as they were;
    the record is stamped from the readings and always carries a truthy
    quality score: the score of the scoring call when that is truthy, else
    5. *)
Theorem submitActivity_effects (activity : ActivityInput.t) (w : World) (new : Activity.t) :
  (submitActivity activity w).1 = Returns new →
  let w' := (submitActivity activity w).2 in
  activities w' = activities w
  ∧ posted w' = posted w ++ [new]
  ∧ clock w' = mkClock (readings (clock w)) (S (S (pos (clock w))))
  ∧ Activity.id new = "act-" +:+ string_of_Z (readings (clock w) (pos (clock w)))
  ∧ Activity.timestamp new = toISOString (readings (clock w) (S (pos (clock w))))
  ∧ truthy (Activity.qualityScore new) = true
  ∧ Activity.qualityScore new
    = match aiScore w with
      | Some score => if truthy score then score else 5%float
      | None => 5%float
      end.
Proof.
  intros [Hw Hnew]%submitActivity_returns. rewrite Hw. clear Hw. subst new.
  cbn [snd activities posted clock Activity.id Activity.timestamp Activity.qualityScore].
  split_and!; try reflexivity.
  - destruct (aiScore w); [by apply or_else_truthy|done].
  - destruct (aiScore w) as [score|]; [|done]. unfold or_else, truthy.
    by destruct (is_nan score || (score =? 0)%float).
Qed.

Lemma submitActivity_effects_witness :
  truthy (Activity.qualityScore
    (Activity.mk "act-1704110400000" "CIAL001" "2024-01-02" (Some 3%float) "" "" None 5%float
       "2024-01-01T12:00:00.000Z")) = true.
Proof.
  exact (proj1 (proj2 (proj2 (proj2 (proj2 (proj2
    (submitActivity_effects
       (ActivityInput.mk "CIAL001" "2024-01-02" (Some 3%float) "" "" None)
       (mkWorld [day "2024-01-01" 3] (Some 0%float) [] (steady 1704110400000))
       _ eq_refl))))))).
Defined.

(** X13. Once the returned record is among the fetched records, the same
    submission is refused. *)
Theorem submitActivity_then_refused
    (activity : ActivityInput.t) (w w' : World) (new : Activity.t) :
  (submitActivity activity w).1 = Returns new →
  new ∈ activities w' →
  (submitActivity activity w').1 = Throws "A record for today already exists.".
Proof.
  intros [_ Hnew]%submitActivity_returns Hin.
  apply submitActivity_throws_iff. exists new. split.
  - unfold getActivities. case_bool_decide; [|done].
    apply list_elem_of_filter. split; [|done]. by rewrite Hnew.
  - by rewrite Hnew.
Qed.

Lemma submitActivity_then_refused_witness :
  (submitActivity (ActivityInput.mk "CIAL001" "2024-01-02" (Some 3%float) "" "" None)
     (mkWorld [day "2024-01-01" 3;
               Activity.mk "act-1704110400000" "CIAL001" "2024-01-02" (Some 3%float) "" "" None
                 5%float "2024-01-01T12:00:00.000Z"]
        None [] (steady 1704196800000))).1
  = Throws "A record for today already exists.".
Proof.
  refine (submitActivity_then_refused
            (ActivityInput.mk "CIAL001" "2024-01-02" (Some 3%float) "" "" None)
            (mkWorld [day "2024-01-01" 3] None [] (steady 1704110400000)) _ _ eq_refl _).
  apply elem_of_cons. right. apply elem_of_cons. by left.
Defined.

(* ===================================================================== *)
(** * Eligibility and the thresholds; the order of the records *)
(* ===================================================================== *)

(** X14. The result is eligible exactly when the three thresholds are met:
    at least 60 active days, an average that is not below 2.5 and a longest
    gap of at most 3 days; and reasons holds one entry per threshold that is
    not met. *)
Theorem isEligible_thresholds
    (toFixed : float → nat → string) (activities : list Activity.t) (joiningDate : string) :
  let r := calculateEligibility toFixed activities joiningDate in
  (EligibilityResult.isEligible r = true
   ↔ (60 ≤ EligibilityResult.activeDays r)%nat
     ∧ (EligibilityResult.averageHours r <? 2.5)%float = false
     ∧ EligibilityResult.maxGapDays r ≤ 3)
  ∧ length (EligibilityResult.reasons r)
    = ((if (EligibilityResult.activeDays r <? 60)%nat then 1 else 0)
       + (if (EligibilityResult.averageHours r <? 2.5)%float then 1 else 0)
       + (if (3 <? EligibilityResult.maxGapDays r)%Z then 1 else 0))%nat.
Proof.
  unfold calculateEligibility.
  cbn [EligibilityResult.isEligible EligibilityResult.activeDays EligibilityResult.averageHours
       EligibilityResult.maxGapDays EligibilityResult.reasons].
  set (n := length (new_Set _)). set (avg := if (0 <? n)%nat then _ else _).
  set (gap := if (1 <? _)%nat then _ else _).
  destruct (Nat.ltb_spec n 60), (avg <? 2.5)%float, (Z.ltb_spec 3 gap);
    cbn [app length Nat.eqb andb]; (split; [|reflexivity]).
  all: try (split; [discriminate|intros (? & ? & ?); first [lia|discriminate]]).
  destruct (Nat.ltb_spec 0 n); [|lia]. split; [intros _; split_and!; [lia|done|lia]|done].
Qed.

(** The dates in ascending order depend only on the records as a
    multiset. *)
Lemma sorted_dates_perm (l1 l2 : list Activity.t) :
  l1 ≡ₚ l2 →
  Activity.date <$> Array_sort byDate l1 = Activity.date <$> Array_sort byDate l2.
Proof.
  intros Hp. apply (Sorted_unique str_le); [apply sorted_dates..|].
  by rewrite !Array_sort_perm, Hp.
Qed.

Lemma distinctDateCount_ext (l1 l2 : list Activity.t) :
  (∀ s, s ∈ Activity.date <$> l1 ↔ s ∈ Activity.date <$> l2) →
  distinctDateCount l1 = distinctDateCount l2.
Proof.
  intros H. unfold distinctDateCount. f_equal. apply set_eq. intros s.
  rewrite !elem_of_list_to_set. apply H.
Qed.

Lemma distinctDatesDesc_ext (l1 l2 : list Activity.t) :
  (∀ s, s ∈ Activity.date <$> l1 ↔ s ∈ Activity.date <$> l2) →
  distinctDatesDesc l1 = distinctDatesDesc l2.
Proof.
  intros H. unfold distinctDatesDesc. f_equal.
  apply (Sorted_unique str_le).
  - apply (Array_sort_Sorted localeCompare), localeCompare_antisym.
  - apply (Array_sort_Sorted localeCompare), localeCompare_antisym.
  - rewrite !Array_sort_perm. apply NoDup_Permutation; [apply new_Set_NoDup..|].
    intros s. rewrite !new_Set_elem. apply H.
Qed.

(** X15. The order in which the records are passed does not matter for
    activeDays and maxGapDays. *)
Theorem calculateEligibility_order
    (toFixed : float → nat → string) (activities1 activities2 : list Activity.t)
    (joiningDate : string) :
  activities1 ≡ₚ activities2 →
  let r1 := calculateEligibility toFixed activities1 joiningDate in
  let r2 := calculateEligibility toFixed activities2 joiningDate in
  EligibilityResult.activeDays r1 = EligibilityResult.activeDays r2
  ∧ EligibilityResult.maxGapDays r1 = EligibilityResult.maxGapDays r2.
Proof.
  intros Hp. cbv zeta. rewrite !calculateEligibility_activeDays, !maxGapDays_spec. split.
  - apply distinctDateCount_ext. intros s. by rewrite Hp.
  - by rewrite (sorted_dates_perm _ _ Hp).
Qed.

Lemma calculateEligibility_order_witness :
  EligibilityResult.maxGapDays
    (calculateEligibility (fun _ _ => EmptyString)
       [day "2024-01-05" 3; day "2024-01-01" 2] "2024-05-01")
  = EligibilityResult.maxGapDays
      (calculateEligibility (fun _ _ => EmptyString)
         [day "2024-01-01" 2; day "2024-01-05" 3] "2024-05-01").
Proof.
  exact (proj2 (calculateEligibility_order (fun _ _ => EmptyString)
                  [day "2024-01-05" 3; day "2024-01-01" 2]
                  [day "2024-01-01" 2; day "2024-01-05" 3] "2024-05-01"
                  (perm_swap _ _ _))).
Defined.

(** X16. Under the same clock, the order in which the records are passed
    does not matter for totalActiveDays, currentStreak and
    totalSubmissions. *)
Theorem calculateStats_order (activities1 activities2 : list Activity.t) (clock : Clock) :
  activities1 ≡ₚ activities2 →
  let st1 := (calculateStats activities1 clock).1 in
  let st2 := (calculateStats activities2 clock).1 in
  Statistics.totalActiveDays st1 = Statistics.totalActiveDays st2
  ∧ Statistics.currentStreak st1 = Statistics.currentStreak st2
  ∧ Statistics.totalSubmissions st1 = Statistics.totalSubmissions st2.
Proof.
  intros Hp. cbv zeta. rewrite !calculateStats_fst.
  cbn [Statistics.totalActiveDays Statistics.currentStreak Statistics.totalSubmissions].
  assert (∀ s, s ∈ Activity.date <$> activities1 ↔ s ∈ Activity.date <$> activities2) as Hd.
  { intros s. by rewrite Hp. }
  rewrite (distinctDateCount_ext _ _ Hd), (distinctDatesDesc_ext _ _ Hd). by rewrite Hp.
Qed.

Lemma calculateStats_order_witness :
  Statistics.currentStreak
    (calculateStats [day "2024-01-01" 3; day "2023-12-31" 2] (steady 1704110400000)).1
  = Statistics.currentStreak
      (calculateStats [day "2023-12-31" 2; day "2024-01-01" 3] (steady 1704110400000)).1.
Proof.
  exact (proj1 (proj2 (calculateStats_order
                  [day "2024-01-01" 3; day "2023-12-31" 2]
                  [day "2023-12-31" 2; day "2024-01-01" 3] (steady 1704110400000)
                  (perm_swap _ _ _)))).
Defined.

(** ** A second record on a date *)

Lemma sort_insert_dates (r : Activity.t) (l : list Activity.t) :
  Activity.date <$> sort_insert byDate r l
  = sort_insert localeCompare (Activity.date r) (Activity.date <$> l).
Proof.
  induction l as [|y l IH]; [done|]. cbn [sort_insert fmap list_fmap].
  unfold byDate at 1. destruct (localeCompare _ _); [done|done|].
  cbn [fmap list_fmap]. f_equal. apply IH.
Qed.

Lemma specMaxGap_head y M :
  specMaxGap (y :: M) =
  match M with
  | [] => 0
  | z :: _ => match gapBetween y z with
              | Some g => Z.max g (specMaxGap M)
              | None => specMaxGap M
              end
  end.
Proof. destruct M; [done|apply specMaxGap_cons]. Qed.

Lemma specMaxGap_twice s L : specMaxGap (s :: s :: L) = specMaxGap (s :: L).
Proof.
  rewrite specMaxGap_cons. pose proof (specMaxGap_nonneg (s :: L)).
  unfold gapBetween. destruct (Date_getTime s); [|done].
  rewrite Z.sub_diag. change (0 / msPerDay - 1) with (-1). lia.
Qed.

(** Inserting a string that is already there repeats it in place. *)
Lemma sort_insert_present s L :
  StronglySorted str_le L → s ∈ L →
  specMaxGap (sort_insert localeCompare s L) = specMaxGap L
  ∧ hd_error (sort_insert localeCompare s L) = hd_error L.
Proof.
  induction 1 as [|y L Hs IH Hall]; intros Hin; [by apply elem_of_nil in Hin|].
  cbn [sort_insert].
  assert (str_le y s) as Hys.
  { apply elem_of_cons in Hin as [->|Hin]; [apply str_le_alt; by left|].
    rewrite Forall_forall in Hall. by apply Hall. }
  destruct (localeCompare s y) eqn:Hc.
  - assert (s = y) as -> by (by apply String.compare_eq_iff).
    split; [apply specMaxGap_twice|done].
  - assert (s = y) as ->.
    { apply (anti_symm str_le); [|done]. unfold str_le. by rewrite Hc. }
    split; [apply specMaxGap_twice|done].
  - assert (s ∈ L) as HinL.
    { apply elem_of_cons in Hin as [->|?]; [|done].
      unfold localeCompare in Hc.
      assert (str_le y y) as Hr by (apply str_le_alt; by left).
      unfold str_le, localeCompare in Hr. done. }
    destruct (IH HinL) as [Hgap Hhd]. split; [|done].
    rewrite !specMaxGap_head, Hgap.
    destruct (sort_insert localeCompare s L) as [|z M], L as [|z' L']; try done.
    by injection Hhd as ->.
Qed.

(** X17. A further record on a date that already has one changes neither
    activeDays nor maxGapDays. *)
Theorem calculateEligibility_second_record
    (toFixed : float → nat → string) (r : Activity.t) (activities : list Activity.t)
    (joiningDate : string) :
  (∃ a, a ∈ activities ∧ Activity.date a = Activity.date r) →
  let e1 := calculateEligibility toFixed (r :: activities) joiningDate in
  let e0 := calculateEligibility toFixed activities joiningDate in
  EligibilityResult.activeDays e1 = EligibilityResult.activeDays e0
  ∧ EligibilityResult.maxGapDays e1 = EligibilityResult.maxGapDays e0.
Proof.
  intros (a & Ha & Hd). cbv zeta.
  rewrite !calculateEligibility_activeDays, !maxGapDays_spec. split.
  - apply distinctDateCount_ext. intros s. rewrite fmap_cons, elem_of_cons.
    split; [|by right]. intros [->|?]; [|done].
    rewrite <- Hd. apply list_elem_of_fmap. by exists a.
  - change (Array_sort byDate (r :: activities))
      with (sort_insert byDate r (Array_sort byDate activities)).
    rewrite sort_insert_dates. apply sort_insert_present.
    + apply (Sorted_StronglySorted str_le), sorted_dates.
    + rewrite <- Hd. apply list_elem_of_fmap. exists a.
      split; [done|]. by rewrite Array_sort_perm.
Qed.

Lemma calculateEligibility_second_record_witness :
  EligibilityResult.maxGapDays
    (calculateEligibility (fun _ _ => EmptyString)
       [day "2024-01-01" 2; day "2024-01-05" 3; day "2024-01-01" 3] "2024-05-01")
  = EligibilityResult.maxGapDays
      (calculateEligibility (fun _ _ => EmptyString)
         [day "2024-01-05" 3; day "2024-01-01" 3] "2024-05-01").
Proof.
  refine (proj2 (calculateEligibility_second_record (fun _ _ => EmptyString)
                   (day "2024-01-01" 2) [day "2024-01-05" 3; day "2024-01-01" 3]
                   "2024-05-01" _)).
  exists (day "2024-01-01" 3). split; [|reflexivity].
  apply elem_of_cons. right. apply elem_of_cons. by left.
Defined.

(** X18. Under the same clock, a further record on a date that already
    has one leaves totalActiveDays and currentStreak as they are and raises
    totalSubmissions by one. *)
Theorem calculateStats_second_record
    (r : Activity.t) (activities : list Activity.t) (clock : Clock) :
  (∃ a, a ∈ activities ∧ Activity.date a = Activity.date r) →
  let st1 := (calculateStats (r :: activities) clock).1 in
  let st0 := (calculateStats activities clock).1 in
  Statistics.totalActiveDays st1 = Statistics.totalActiveDays st0
  ∧ Statistics.currentStreak st1 = Statistics.currentStreak st0
  ∧ Statistics.totalSubmissions st1 = S (Statistics.totalSubmissions st0).
Proof.
  intros (a & Ha & Hd). cbv zeta. rewrite !calculateStats_fst.
  cbn [Statistics.totalActiveDays Statistics.currentStreak Statistics.totalSubmissions].
  assert (∀ s, s ∈ Activity.date <$> r :: activities ↔ s ∈ Activity.date <$> activities) as He.
  { intros s. rewrite fmap_cons, elem_of_cons.
    split; [|by right]. intros [->|?]; [|done].
    rewrite <- Hd. apply list_elem_of_fmap. by exists a. }
  by rewrite (distinctDateCount_ext _ _ He), (distinctDatesDesc_ext _ _ He).
Qed.

Lemma calculateStats_second_record_witness :
  Statistics.totalSubmissions
    (calculateStats [day "2024-01-01" 2; day "2024-01-01" 3] (steady 1704110400000)).1
  = S (Statistics.totalSubmissions
         (calculateStats [day "2024-01-01" 3] (steady 1704110400000)).1).
Proof.
  refine (proj2 (proj2 (calculateStats_second_record (day "2024-01-01" 2)
                   [day "2024-01-01" 3] (steady 1704110400000) _))).
  exists (day "2024-01-01" 3). split; [apply elem_of_cons; by left|reflexivity].
Defined.

(* ===================================================================== *)
(** * The CSV text *)
(* ===================================================================== *)

Lemma has_char_app c s t : has_char c (s +:+ t) = has_char c s || has_char c t.
Proof. induction s as [|a s IH]; simpl; [done|]. by rewrite IH, orb_assoc. Qed.

Lemma split_char_absent c s : has_char c s = false → split_char c s = [s].
Proof.
  induction s as [|a s IH]; simpl; [done|].
  intros [Ha Hs]%orb_false_iff. by rewrite Ha, (IH Hs).
Qed.

Lemma split_char_sep c s t :
  has_char c s = false → split_char c (s +:+ String c t) = s :: split_char c t.
Proof.
  induction s as [|a s IH]; simpl.
  - intros _. by rewrite Ascii.eqb_refl.
  - intros [Ha Hs]%orb_false_iff. by rewrite Ha, (IH Hs).
Qed.

Lemma concat_cons sep x y l :
  String.concat sep (x :: y :: l) = x +:+ sep +:+ String.concat sep (y :: l).
Proof. reflexivity. Qed.

(** Splitting undoes joining when no piece holds the separator. *)
Lemma split_char_concat c l :
  l ≠ [] → Forall (fun s => has_char c s = false) l →
  split_char c (String.concat (String c EmptyString) l) = l.
Proof.
  intros Hl Hall. induction Hall as [|x l Hx Hall IH]; [done|].
  destruct l as [|y l]; [by apply split_char_absent|].
  rewrite concat_cons. change (String c EmptyString +:+ ?t) with (String c t).
  rewrite split_char_sep by done. f_equal. by apply IH.
Qed.

Lemma has_char_concat c sep l :
  has_char c sep = false → Forall (fun s => has_char c s = false) l →
  has_char c (String.concat sep l) = false.
Proof.
  intros Hsep Hall. induction Hall as [|x l Hx Hall IH]; [done|].
  destruct l as [|y l]; [done|].
  rewrite concat_cons, !has_char_app, Hx, Hsep, IH. done.
Qed.

Section CSV.
Context {Value : Type} (toString : Value → string).

Lemma csvRow_no_newline obj :
  (∀ kv, kv ∈ obj → has_char newline (toString kv.2) = false) →
  has_char newline (csvRow toString obj) = false.
Proof.
  intros H. apply has_char_concat; [done|].
  rewrite List.map_map. apply Forall_forall. intros s Hs.
  change (map ?f ?l) with (f <$> l) in Hs. apply list_elem_of_fmap in Hs as (kv & -> & Hkv).
  simpl. rewrite has_char_app, (H kv Hkv). done.
Qed.

(** X19. formatCSV gives the empty text for no data.  Otherwise, when no
    key of the first object and no printed value holds a line break, the
    text splits at line breaks into the header (the keys of the first object
    joined by commas) followed by one line per object, in order. *)
Theorem formatCSV_lines (first : list (string * Value)) (rest : list (list (string * Value))) :
  formatCSV Value toString [] = EmptyString
  ∧ ((∀ k, k ∈ map fst first → has_char newline k = false) →
     (∀ obj kv, obj ∈ first :: rest → kv ∈ obj → has_char newline (toString kv.2) = false) →
     split_char newline (formatCSV Value toString (first :: rest))
     = String.concat "," (map fst first) :: map (csvRow toString) (first :: rest)).
Proof.
  split; [done|]. intros Hkeys Hvals.
  change (formatCSV Value toString (first :: rest))
    with (String.concat (String newline EmptyString)
            (String.concat "," (map fst first) :: map (csvRow toString) (first :: rest))).
  apply split_char_concat; [done|]. apply Forall_cons. split.
  - apply has_char_concat; [done|]. by apply Forall_forall.
  - apply Forall_forall. intros s Hs.
    change (map ?f ?l) with (f <$> l) in Hs. apply list_elem_of_fmap in Hs as (obj & -> & Hobj).
    apply csvRow_no_newline. intros kv Hkv. by apply (Hvals obj).
Qed.

(** X20. A data line of an object with at least one property splits at
    commas into exactly the quoted values, one per property, when no printed
    value holds a comma; a value with a comma is not protected by its
    quotes and yields more fields than properties. *)
Theorem csvRow_fields (obj : list (string * Value)) :
  obj ≠ [] →
  ((∀ kv, kv ∈ obj → has_char comma (toString kv.2) = false) →
   split_char comma (csvRow toString obj)
   = map (fun kv => String quote (toString kv.2 +:+ String quote EmptyString)) obj)
  ∧ (∀ k v, obj = [(k, v)] → has_char comma (toString v) = true →
            (1 < length (split_char comma (csvRow toString obj)))%nat).
Proof.
  intros Hobj. split.
  - intros H. unfold csvRow. rewrite List.map_map.
    apply (split_char_concat comma); [by destruct obj|].
    apply Forall_forall. intros s Hs.
    change (map ?f ?l) with (f <$> l) in Hs. apply list_elem_of_fmap in Hs as (kv & -> & Hkv).
    simpl. rewrite has_char_app, (H kv Hkv). done.
  - intros k v -> Hv. unfold csvRow. cbn [map snd String.concat].
    cbn [split_char]. change (Ascii.eqb quote comma) with false. cbn match.
    assert (∀ s, has_char comma s = true → (1 < length (split_char comma s))%nat) as Hsplit.
    { clear. induction s as [|a s IH]; simpl; [done|].
      destruct (Ascii.eqb a comma); simpl.
      - intros _. destruct s; simpl; [lia|]. destruct (Ascii.eqb _ _); simpl; [lia|].
        destruct (split_char comma s); simpl; lia.
      - intros Hs. specialize (IH Hs). destruct (split_char comma s); simpl in *; lia. }
    assert (has_char comma (toString v +:+ String quote EmptyString) = true) as Hc.
    { by rewrite has_char_app, Hv. }
    specialize (Hsplit _ Hc).
    destruct (split_char comma (toString v +:+ String quote EmptyString)); simpl in *; lia.
Qed.

End CSV.

Lemma formatCSV_lines_witness :
  split_char newline (formatCSV string (fun s => s) [[("date", "2024-01-01"); ("hours", "3")]])
  = ["date,hours"; csvRow (fun s => s) [("date", "2024-01-01"); ("hours", "3")]].
Proof.
  refine (proj2 (formatCSV_lines (fun s : string => s)
                   [("date", "2024-01-01"); ("hours", "3")] []) _ _).
  - intros k Hk. repeat (apply elem_of_cons in Hk as [->|Hk]; [reflexivity|]).
    by apply elem_of_nil in Hk.
  - intros obj kv Hobj Hkv. apply list_elem_of_singleton in Hobj. subst obj.
    repeat (apply elem_of_cons in Hkv as [->|Hkv]; [reflexivity|]).
    by apply elem_of_nil in Hkv.
Defined.

Lemma csvRow_fields_witness :
  split_char comma (csvRow (fun s : string => s) [("date", "2024-01-01"); ("hours", "3")])
  = map (fun kv : string * string => String quote (kv.2 +:+ String quote EmptyString))
        [("date", "2024-01-01"); ("hours", "3")].
Proof.
  refine (proj1 (csvRow_fields (fun s : string => s)
                   [("date", "2024-01-01"); ("hours", "3")] _) _).
  - discriminate.
  - intros kv Hkv. repeat (apply elem_of_cons in Hkv as [->|Hkv]; [reflexivity|]).
    by apply elem_of_nil in Hkv.
Defined.

(** ** A streak over all active days *)

Lemma consecutiveRun_full ds :
  consecutiveRun ds = pred (length ds)
  ↔ Forall (fun p => dayBefore p.1 p.2 = true) (adjacentPairs ds).
Proof.
  induction ds as [|a ds IH]; [by split|]. destruct ds as [|b t]; [by split|].
  rewrite consecutiveRun_cons.
  change (adjacentPairs (a :: b :: t)) with ((a, b) :: adjacentPairs (b :: t)).
  change (pred (length (a :: b :: t))) with (S (pred (length (b :: t)))).
  rewrite Forall_cons. cbn [fst snd]. destruct IH as [IH1 IH2].
  destruct (dayBefore a b).
  - split.
    + intros [= Hrun]. split; [done|]. by apply IH1.
    + intros [_ Hall]. f_equal. by apply IH2.
  - split; [done|]. by intros [? _].
Qed.

(** X21. When the newest distinct date is today or yesterday, the streak
    covers all active days exactly when every distinct date is one calendar
    day after the next older one; any other step leaves the streak
    shorter. *)
Theorem calculateStats_full_streak (activities : list Activity.t) (clock : Clock) :
  let st := (calculateStats activities clock).1 in
  let ds := distinctDatesDesc activities in
  (∃ newest, head ds = Some newest
     ∧ (newest = calendarDay (readings clock (pos clock))
        ∨ newest = calendarDay (readings clock (S (pos clock)) - msPerDay))) →
  (Statistics.currentStreak st = Statistics.totalActiveDays st
   ↔ Forall (fun p => dayBefore p.1 p.2 = true) (adjacentPairs ds)).
Proof.
  intros st ds (newest & Hhd & Hnew). unfold st. rewrite calculateStats_fst.
  cbn [Statistics.currentStreak Statistics.totalActiveDays].
  destruct (distinctDatesDesc_facts activities) as (_ & _ & _ & Hlen).
  rewrite <- Hlen, <- consecutiveRun_full. fold ds.
  destruct ds as [|d ds']; [done|]. injection Hhd as ->.
  unfold specStreak. rewrite bool_decide_eq_false_2.
  - cbn [length pred]. lia.
  - intros [H1 H2]. destruct Hnew; contradiction.
Qed.

Lemma calculateStats_full_streak_witness :
  Statistics.currentStreak
    (calculateStats [day "2024-01-01" 3; day "2023-12-31" 2] (steady 1704110400000)).1
  = Statistics.totalActiveDays
      (calculateStats [day "2024-01-01" 3; day "2023-12-31" 2] (steady 1704110400000)).1.
Proof.
  refine (proj2 (calculateStats_full_streak
                   [day "2024-01-01" 3; day "2023-12-31" 2] (steady 1704110400000) _) _).
  - exists "2024-01-01". split; [reflexivity|]. left. reflexivity.
  - repeat constructor.
Defined.
